(** * script-bucket: the manifest builder [tools/build-manifest.js]

    A shallow embedding of the directive parser ([parseScript]), the
    directory walk ([walkDir]) and the aggregation loop ([buildManifest]),
    followed by the properties of the specification that concern them.

    JavaScript strings are sequences of UTF-16 code units; a code unit is a
    number in [N], a string a [list N].  Regular expressions are embedded as
    the matchers they denote, one combinator per regex atom, capture groups
    returned in order. *)

From Stdlib Require Import NArith String Ascii.
From stdpp Require Import base option list gmap.

Local Open Scope N_scope.
Local Open Scope list_scope.

(** ** Strings *)

(** A source literal, written in ASCII. *)
Definition js (s : string) : list N :=
  map N_of_ascii (list_ascii_of_string s).

(** The double quote, as a one-character string. *)
Definition dq : list N := [34].

Fixpoint str_eqb (a b : list N) : bool :=
  match a, b with
  | [], [] => true
  | x :: a', y :: b' => (x =? y) && str_eqb a' b'
  | _, _ => false
  end.

(** ECMAScript [LineTerminator]: LF, CR, LS, PS. *)
Definition is_line_terminator (c : N) : bool :=
  (c =? 10) || (c =? 13) || (c =? 8232) || (c =? 8233).

(** ECMAScript [WhiteSpace]: TAB, VT, FF, ZWNBSP and the Unicode category
    Zs (SP, NBSP, U+1680, U+2000..U+200A, U+202F, U+205F, U+3000). *)
Definition is_white_space (c : N) : bool :=
  (c =? 9) || (c =? 11) || (c =? 12) || (c =? 32) || (c =? 160)
  || (c =? 5760) || ((8192 <=? c) && (c <=? 8202))
  || (c =? 8239) || (c =? 8287) || (c =? 12288) || (c =? 65279).

(** The class [\s] of a regex, which is also what [String.prototype.trim]
    strips: white space and line terminators. *)
Definition is_space (c : N) : bool :=
  is_white_space c || is_line_terminator c.

(** The class [\w] (no [u] or [i] flag): [A-Za-z0-9_]. *)
Definition is_word (c : N) : bool :=
  ((65 <=? c) && (c <=? 90)) || ((97 <=? c) && (c <=? 122))
  || ((48 <=? c) && (c <=? 57)) || (c =? 95).

(** The class [[\w-]]. *)
Definition is_word_or_hyphen (c : N) : bool := is_word c || (c =? 45).

(** The atom [.] (no [s] flag): anything but a line terminator. *)
Definition is_dot (c : N) : bool := negb (is_line_terminator c).

(** The class [[^\x22]] (every character but the double quote). *)
Definition is_not_quote (c : N) : bool := negb (c =? 34).

(** The longest prefix whose characters satisfy [p], and what follows it. *)
Fixpoint span (p : N -> bool) (s : list N) : list N * list N :=
  match s with
  | [] => ([], [])
  | c :: r =>
      if p c then let (a, b) := span p r in (c :: a, b) else ([], s)
  end.

Definition trimStart (s : list N) : list N := snd (span is_space s).
Definition trimEnd (s : list N) : list N := rev (trimStart (rev s)).

(** [String.prototype.trim]. *)
Definition trim (s : list N) : list N := trimEnd (trimStart s).

(** [s.startsWith(p)]. *)
Fixpoint startsWith (s p : list N) : bool :=
  match p, s with
  | [], _ => true
  | x :: p', y :: s' => (x =? y) && startsWith s' p'
  | _ :: _, [] => false
  end.

(** [s.endsWith(p)]. *)
Definition endsWith (s p : list N) : bool := startsWith (rev s) (rev p).

(** [s.slice(1)]. *)
Definition slice1 (s : list N) : list N := tail s.

(** [content.split('\n')]: the pieces between line feeds; an input without
    a line feed is one piece, the empty input one empty piece. *)
Fixpoint split_lines (s : list N) : list (list N) :=
  match s with
  | [] => [[]]
  | c :: r =>
      if c =? 10 then [] :: split_lines r
      else match split_lines r with
           | [] => [[c]]
           | l :: ls => (c :: l) :: ls
           end
  end.

(** [value.split(/\s+/)]: the pieces between maximal runs of white space;
    a leading or trailing run leaves an empty piece at that end.
    [in_run] tells that the previous character belonged to a run. *)
Fixpoint split_ws_from (in_run : bool) (s : list N) : list (list N) :=
  match s with
  | [] => [[]]
  | c :: r =>
      if is_space c then
        if in_run then split_ws_from true r else [] :: split_ws_from true r
      else
        match split_ws_from false r with
        | [] => [[c]]
        | l :: ls => (c :: l) :: ls
        end
  end.

Definition split_ws (s : list N) : list (list N) := split_ws_from false s.

(** ** Regular expressions *)

(** A literal character. *)
Definition lit (c : N) (s : list N) : option (list N) :=
  match s with
  | x :: r => if x =? c then Some r else None
  | [] => None
  end.

(** A literal string. *)
Fixpoint lits (p s : list N) : option (list N) :=
  match p with
  | [] => Some s
  | c :: p' => match lit c s with Some r => lits p' r | None => None end
  end.

(** One character of a class. *)
Definition one (p : N -> bool) (s : list N) : option (N * list N) :=
  match s with
  | x :: r => if p x then Some (x, r) else None
  | [] => None
  end.

(** Greedy [p*]. *)
Definition many (p : N -> bool) (s : list N) : list N * list N := span p s.

(** Greedy [p+]. *)
Definition many1 (p : N -> bool) (s : list N) : option (list N * list N) :=
  match span p s with
  | ([], _) => None
  | (a, r) => Some (a, r)
  end.

(** The anchor [$] (no [m] flag): the end of the input. *)
Definition at_end (s : list N) : bool :=
  match s with [] => true | _ :: _ => false end.

(** [DIRECTIVE_RE = /^#\s*@(\w+)\s+(.* )/] (in these comments a blank
    separates a star from a closing parenthesis): the groups
    [(directive, rawValue)].  A quantifier never has to give back what it
    took: the first two are followed by an atom their class excludes, and
    after the greedy white space the last group matches whatever is left,
    up to the first line terminator. *)
Definition DIRECTIVE_RE (s : list N) : option (list N * list N) :=
  s ← lit 35 s;
  let s := snd (many is_space s) in
  s ← lit 64 s;
  '(directive, s) ← many1 is_word s;
  '(_, s) ← many1 is_space s;
  let rawValue := fst (many is_dot s) in
  Some (directive, rawValue).

(** The groups of [ARG_RE]; [m4] and [m5] are [undefined] ([None]) when the
    optional modifier did not take part in the match. *)
Record ArgMatch := {
  m1 : list N;
  m2 : list N;
  m3 : list N;
  m4 : option (list N);
  m5 : option (list N)
}.

(** The alternation [(string|number|boolean)]. *)
Definition arg_type (s : list N) : option (list N * list N) :=
  match lits (js "string") s with
  | Some r => Some (js "string", r)
  | None =>
      match lits (js "number") s with
      | Some r => Some (js "number", r)
      | None =>
          match lits (js "boolean") s with
          | Some r => Some (js "boolean", r)
          | None => None
          end
      end
  end.

(** The alternation [(\?|\.\.\.|(=.+))] followed by [$]: the groups
    [(m4, m5)]. *)
Definition arg_modifier (s : list N)
  : option (option (list N) * option (list N)) :=
  match lits (js "?") s with
  | Some [] => Some (Some (js "?"), None)
  | _ =>
      match lits (js "...") s with
      | Some [] => Some (Some (js "..."), None)
      | _ =>
          match lit 61 s with
          | Some r =>
              match many1 is_dot r with
              | Some (_, []) => Some (Some s, Some s)
              | _ => None
              end
          | None => None
          end
      end
  end.

(** [ARG_RE], writing [\x22] for the double quote:
    [/^(\w[\w-]* )\s+(string|number|boolean)\s+\x22([^\x22]+)\x22(?:\s+(\?|\.\.\.|(=.+)))?$/].
    Here too every quantifier is followed by an atom its class excludes,
    or by the end of the input.  The optional group is tried first; without
    it the input must end at the closing quote. *)
Definition ARG_RE (s : list N) : option ArgMatch :=
  '(c, s) ← one is_word s;
  let (cs, s) := many is_word_or_hyphen s in
  '(_, s) ← many1 is_space s;
  '(ty, s) ← arg_type s;
  '(_, s) ← many1 is_space s;
  s ← lit 34 s;
  '(desc, s) ← many1 is_not_quote s;
  s ← lit 34 s;
  match (many1 is_space s ≫= fun '(_, t) => arg_modifier t) with
  | Some (g4, g5) =>
      Some {| m1 := c :: cs; m2 := ty; m3 := desc; m4 := g4; m5 := g5 |}
  | None =>
      if at_end s
      then Some {| m1 := c :: cs; m2 := ty; m3 := desc;
                   m4 := None; m5 := None |}
      else None
  end.

(** [ENV_RE = /^(\w+)(?:\s+\x22([^\x22]+)\x22)?$/]: the groups
    [(em1, em2)]. *)
Definition ENV_RE (s : list N) : option (list N * option (list N)) :=
  '(var, s) ← many1 is_word s;
  match (many1 is_space s ≫= fun '(_, t) =>
         t ← lit 34 t;
         '(hint, t) ← many1 is_not_quote t;
         t ← lit 34 t;
         if at_end t then Some hint else None) with
  | Some hint => Some (var, Some hint)
  | None => if at_end s then Some (var, None) else None
  end.

(** ** Values

    What [JSON.stringify] sees: object literals keep their keys in the order
    they were written. *)

#[local] Set Warnings "-register-all".

Inductive JSON :=
| JNull
| JBool (b : bool)
| JNum (n : N)
| JStr (s : list N)
| JArr (items : list JSON)
| JObj (fields : list (list N * JSON)).

(** [o.k] on an object literal: [None] is [undefined]. *)
Fixpoint obj_get (fields : list (list N * JSON)) (k : list N) : option JSON :=
  match fields with
  | [] => None
  | (k', v) :: r => if str_eqb k' k then Some v else obj_get r k
  end.

Definition get (v : JSON) (k : list N) : option JSON :=
  match v with JObj fields => obj_get fields k | _ => None end.

Definition keys (v : JSON) : list (list N) :=
  match v with JObj fields => map fst fields | _ => [] end.

(** Truthiness of a string that may be [null] or [undefined]: only a
    non-empty string is truthy. *)
Definition truthy (o : option (list N)) : bool :=
  match o with
  | Some (_ :: _) => true
  | _ => false
  end.

(** A nullable string as a value. *)
Definition nullable (o : option (list N)) : JSON :=
  match o with Some s => JStr s | None => JNull end.

(** ** The directive parser *)

Record Meta := {
  name : option (list N);
  description : option (list N);
  args : list JSON;
  deps : list (list N);
  envs : list (list N);
  output : list N;
  header : list (list N);
  category : option (list N);
  tags : list (list N);
  author : option (list N);
  platform : list N;
  examples : list (list N);
  stdin : bool;
  version : option (list N)
}.

(** The record [parseScript] starts from. *)
Definition meta0 : Meta := {|
  name := None;
  description := None;
  args := [];
  deps := [];
  envs := [];
  output := js "text";
  header := [];
  category := None;
  tags := [];
  author := None;
  platform := js "all";
  examples := [];
  stdin := false;
  version := None
|}.

(** The object pushed for a matching [@arg]:
    [{ name, type, description, required: !m[4], ...variadic, ...default }]. *)
Definition arg_object (m : ArgMatch) : JSON :=
  JObj ([ (js "name", JStr (m1 m));
          (js "type", JStr (m2 m));
          (js "description", JStr (m3 m));
          (js "required", JBool (negb (truthy (m4 m)))) ]
        ++ (match m4 m with
            | Some g => if str_eqb g (js "...")
                        then [(js "variadic", JBool true)] else []
            | None => []
            end)
        ++ (match m5 m with
            | Some g => if truthy (Some g)
                        then [(js "default", JStr (slice1 g))] else []
            | None => []
            end)).

(** Field assignments [meta.f = v]. *)
Definition set_name (v : option (list N)) (m : Meta) : Meta :=
  {| name := v; description := description m; args := args m;
     deps := deps m; envs := envs m; output := output m;
     header := header m; category := category m; tags := tags m;
     author := author m; platform := platform m; examples := examples m;
     stdin := stdin m; version := version m |}.

Definition set_description (v : option (list N)) (m : Meta) : Meta :=
  {| name := name m; description := v; args := args m;
     deps := deps m; envs := envs m; output := output m;
     header := header m; category := category m; tags := tags m;
     author := author m; platform := platform m; examples := examples m;
     stdin := stdin m; version := version m |}.

Definition set_args (v : list JSON) (m : Meta) : Meta :=
  {| name := name m; description := description m; args := v;
     deps := deps m; envs := envs m; output := output m;
     header := header m; category := category m; tags := tags m;
     author := author m; platform := platform m; examples := examples m;
     stdin := stdin m; version := version m |}.

Definition set_deps (v : list (list N)) (m : Meta) : Meta :=
  {| name := name m; description := description m; args := args m;
     deps := v; envs := envs m; output := output m;
     header := header m; category := category m; tags := tags m;
     author := author m; platform := platform m; examples := examples m;
     stdin := stdin m; version := version m |}.

Definition set_envs (v : list (list N)) (m : Meta) : Meta :=
  {| name := name m; description := description m; args := args m;
     deps := deps m; envs := v; output := output m;
     header := header m; category := category m; tags := tags m;
     author := author m; platform := platform m; examples := examples m;
     stdin := stdin m; version := version m |}.

Definition set_output (v : list N) (m : Meta) : Meta :=
  {| name := name m; description := description m; args := args m;
     deps := deps m; envs := envs m; output := v;
     header := header m; category := category m; tags := tags m;
     author := author m; platform := platform m; examples := examples m;
     stdin := stdin m; version := version m |}.

Definition set_header (v : list (list N)) (m : Meta) : Meta :=
  {| name := name m; description := description m; args := args m;
     deps := deps m; envs := envs m; output := output m;
     header := v; category := category m; tags := tags m;
     author := author m; platform := platform m; examples := examples m;
     stdin := stdin m; version := version m |}.

Definition set_category (v : option (list N)) (m : Meta) : Meta :=
  {| name := name m; description := description m; args := args m;
     deps := deps m; envs := envs m; output := output m;
     header := header m; category := v; tags := tags m;
     author := author m; platform := platform m; examples := examples m;
     stdin := stdin m; version := version m |}.

Definition set_tags (v : list (list N)) (m : Meta) : Meta :=
  {| name := name m; description := description m; args := args m;
     deps := deps m; envs := envs m; output := output m;
     header := header m; category := category m; tags := v;
     author := author m; platform := platform m; examples := examples m;
     stdin := stdin m; version := version m |}.

Definition set_author (v : option (list N)) (m : Meta) : Meta :=
  {| name := name m; description := description m; args := args m;
     deps := deps m; envs := envs m; output := output m;
     header := header m; category := category m; tags := tags m;
     author := v; platform := platform m; examples := examples m;
     stdin := stdin m; version := version m |}.

Definition set_platform (v : list N) (m : Meta) : Meta :=
  {| name := name m; description := description m; args := args m;
     deps := deps m; envs := envs m; output := output m;
     header := header m; category := category m; tags := tags m;
     author := author m; platform := v; examples := examples m;
     stdin := stdin m; version := version m |}.

Definition set_examples (v : list (list N)) (m : Meta) : Meta :=
  {| name := name m; description := description m; args := args m;
     deps := deps m; envs := envs m; output := output m;
     header := header m; category := category m; tags := tags m;
     author := author m; platform := platform m; examples := v;
     stdin := stdin m; version := version m |}.

Definition set_stdin (v : bool) (m : Meta) : Meta :=
  {| name := name m; description := description m; args := args m;
     deps := deps m; envs := envs m; output := output m;
     header := header m; category := category m; tags := tags m;
     author := author m; platform := platform m; examples := examples m;
     stdin := v; version := version m |}.

Definition set_version (v : option (list N)) (m : Meta) : Meta :=
  {| name := name m; description := description m; args := args m;
     deps := deps m; envs := envs m; output := output m;
     header := header m; category := category m; tags := tags m;
     author := author m; platform := platform m; examples := examples m;
     stdin := stdin m; version := v |}.

(** The [switch (directive)] of [parseScript]; a tag without a [case]
    falls through the switch. *)
Definition dispatch (directive value : list N) (meta : Meta) : Meta :=
  if str_eqb directive (js "name") then set_name (Some value) meta
  else if str_eqb directive (js "description") then
    set_description (Some value) meta
  else if str_eqb directive (js "arg") then
    match ARG_RE value with
    | Some m => set_args (args meta ++ [arg_object m]) meta
    | None => meta
    end
  else if str_eqb directive (js "dep") then
    set_deps (deps meta ++ [value]) meta
  else if str_eqb directive (js "env") then
    match ENV_RE value with
    | Some (em1, _) => set_envs (envs meta ++ [em1]) meta
    | None => meta
    end
  else if str_eqb directive (js "output") then set_output value meta
  else if str_eqb directive (js "header") then
    set_header (split_ws value) meta
  else if str_eqb directive (js "category") then
    set_category (Some value) meta
  else if str_eqb directive (js "tag") then
    set_tags (tags meta ++ [value]) meta
  else if str_eqb directive (js "author") then set_author (Some value) meta
  else if str_eqb directive (js "platform") then set_platform value meta
  else if str_eqb directive (js "example") then
    set_examples (examples meta ++ [value]) meta
  else if str_eqb directive (js "stdin") then
    set_stdin (str_eqb value (js "true")) meta
  else if str_eqb directive (js "version") then
    set_version (Some value) meta
  else meta.

(** One turn of the [for (const line of lines)] loop on the state
    [(meta, seenDirective)]: [None] is [break], [Some] the state the next
    turn starts from ([continue] included). *)
Definition loop_body (st : Meta * bool) (line : list N) : option (Meta * bool) :=
  let (meta, seenDirective) := st in
  let trimmed := trim line in
  if startsWith trimmed (js "#!") then Some st
  else
    match DIRECTIVE_RE trimmed with
    | None =>
        if seenDirective && negb (str_eqb trimmed [])
           && negb (startsWith trimmed (js "#"))
        then None
        else Some st
    | Some (directive, rawValue) =>
        let value := trim rawValue in
        Some (dispatch directive value meta, true)
    end.

(** The loop over the lines; the record is what is left when it ends. *)
Fixpoint scan (lines : list (list N)) (st : Meta * bool) : Meta :=
  match lines with
  | [] => fst st
  | line :: rest =>
      match loop_body st line with
      | None => fst st
      | Some st' => scan rest st'
      end
  end.

Definition parseScript (content : list N) : Meta :=
  scan (split_lines content) (meta0, false).

(** ** Paths

    The functions of [node:path] are modelled by their contract on POSIX
    paths: an absolute, normalized path is the list of its segments. *)

(** [path.join(p, ...segs)]: a [..] segment steps back to the parent (the
    root is its own parent), a [.] or empty segment is dropped. *)
Definition path_join (p : list (list N)) (segs : list (list N))
  : list (list N) :=
  fold_left
    (fun acc seg =>
       if str_eqb seg (js "..") then removelast acc
       else if str_eqb seg (js ".") || str_eqb seg [] then acc
       else acc ++ [seg])
    segs p.

(** The segments of [path.relative(from, to)]: the common prefix is
    dropped, one [..] climbs out of each segment left of [from]. *)
Fixpoint relative_segs (from to : list (list N)) : list (list N) :=
  match from, to with
  | f :: from', t :: to' =>
      if str_eqb f t then relative_segs from' to'
      else map (fun _ => js "..") from ++ to
  | _, _ => map (fun _ => js "..") from ++ to
  end.

(** [segs.join('/')]. *)
Fixpoint join_slash (segs : list (list N)) : list N :=
  match segs with
  | [] => []
  | [x] => x
  | x :: r => x ++ 47 :: join_slash r
  end.

(** [path.relative(from, to)], a string. *)
Definition path_relative (from to : list (list N)) : list N :=
  join_slash (relative_segs from to).

(** ** The directory walk *)

(** What [readdirSync(dir, { withFileTypes: true })] shows of a directory:
    its entries, a directory together with its own listing. *)
Inductive Dirent :=
| File (entry_name : list N)
| Directory (entry_name : list N) (listing : list Dirent).

Record Entry := {
  fullPath : list (list N);
  relativePath : list N
}.

(** Induction on a listing and the listings below it. *)
Fixpoint Dirent_nested_ind (P : Dirent -> Prop)
  (Hfile : forall entry_name, P (File entry_name))
  (Hdir : forall entry_name listing,
      Forall P listing -> P (Directory entry_name listing))
  (entry : Dirent) : P entry :=
  match entry with
  | File entry_name => Hfile entry_name
  | Directory entry_name listing =>
      Hdir entry_name listing
        ((fix all (l : list Dirent) : Forall P l :=
            match l with
            | [] => @List.Forall_nil _ P
            | x :: r =>
                @List.Forall_cons _ P x r (Dirent_nested_ind P Hfile Hdir x) (all r)
            end) listing)
  end.

(** The names [readdirSync] lists are names of entries: never empty, [.]
    or [..]. *)
Definition proper_name (entry_name : list N) : bool :=
  negb (str_eqb entry_name (js ".."))
  && negb (str_eqb entry_name (js ".") || str_eqb entry_name []).

Fixpoint proper_entry (entry : Dirent) : bool :=
  match entry with
  | File entry_name => proper_name entry_name
  | Directory entry_name listing =>
      proper_name entry_name && forallb proper_entry listing
  end.

(** The body of the loop of [walkDir] for one entry of [dir]. *)
Fixpoint walkEntry (dir base : list (list N)) (entry : Dirent) : list Entry :=
  match entry with
  | Directory entry_name listing =>
      let fullPath := path_join dir [entry_name] in
      flat_map (walkEntry fullPath base) listing
  | File entry_name =>
      let fullPath := path_join dir [entry_name] in
      if endsWith entry_name (js ".sh") && negb (startsWith entry_name (js "_"))
      then [ {| fullPath := fullPath;
                relativePath := path_relative base fullPath |} ]
      else []
  end.

(** [walkDir(dir, base)], where [listing] is what [dir] contains. *)
Definition walkDir (listing : list Dirent) (dir base : list (list N))
  : list Entry :=
  flat_map (walkEntry dir base) listing.

(** ** The manifest builder *)

(** The object [scripts = {}], used as a dictionary: its own properties and
    its prototype ([None] is [Object.prototype]). *)
Record JSObject := {
  own : gmap (list N) JSON;
  proto : option JSON
}.

Definition empty_object : JSObject := {| own := ∅; proto := None |}.

(** [o[k] = v].  [Object.prototype] has an accessor [__proto__]: assigning
    to that key sets the prototype when [v] is an object or [null], does
    nothing otherwise, and never creates an own property; any other key
    becomes (or overwrites) an own property. *)
Definition assign (o : JSObject) (k : list N) (v : JSON) : JSObject :=
  if str_eqb k (js "__proto__") then
    match v with
    | JObj _ | JNull => {| own := own o; proto := Some v |}
    | _ => o
    end
  else {| own := <[k := v]> (own o); proto := proto o |}.

(** The key a nullable string is converted to when used in [o[k]]. *)
Definition property_key (o : option (list N)) : list N :=
  match o with Some s => s | None => js "null" end.

(** The object literal stored for an accepted file. *)
Definition entry_object (meta : Meta) (relativePath : list N) : JSON :=
  JObj [ (js "name", nullable (name meta));
         (js "description", nullable (description meta));
         (js "args", JArr (args meta));
         (js "deps", JArr (map JStr (deps meta)));
         (js "envs", JArr (map JStr (envs meta)));
         (js "output", JStr (output meta));
         (js "header", JArr (map JStr (header meta)));
         (js "category", nullable (category meta));
         (js "tags", JArr (map JStr (tags meta)));
         (js "author", nullable (author meta));
         (js "platform", JStr (platform meta));
         (js "examples", JArr (map JStr (examples meta)));
         (js "path", JStr relativePath);
         (js "version", nullable (version meta)) ].

Record Manifest := {
  manifest_version : N;
  updated : list N;
  scripts : JSObject
}.

(** What a run leaves behind: the manifest (returned, and written with
    [JSON.stringify], which serializes own properties only), the count
    printed on the console and the warnings printed after it. *)
Record Build := {
  manifest : Manifest;
  count : nat;
  warnings : list (list N)
}.

Section Builder.

(** [__dirname], the directory of the tool. *)
Variable dirname : list (list N).
(** The listing of [SCRIPTS_DIR]. *)
Variable listing : list Dirent.
(** [fs.readFileSync(p, 'utf8')]. *)
Variable readFileSync : list (list N) -> list N.
(** [new Date().toISOString()]. *)
Variable now : list N.

Definition SCRIPTS_DIR : list (list N) :=
  path_join dirname [js ".."; js "scripts"].

Definition repoRoot : list (list N) := path_join dirname [js ".."].

(** One turn of the loop of [buildManifest] on [(scripts, errors)]. *)
Definition build_body (st : JSObject * list (list N)) (e : Entry)
  : JSObject * list (list N) :=
  let (scripts, errors) := st in
  let content := readFileSync (fullPath e) in
  let meta := parseScript content in
  if negb (truthy (name meta)) then
    (scripts, errors ++ [relativePath e ++ js ": missing @name"])
  else if negb (truthy (description meta)) then
    (scripts, errors ++ [relativePath e ++ js ": missing @description"])
  else
    (assign scripts (property_key (name meta))
       (entry_object meta (relativePath e)),
     errors).

Definition build_loop (entries : list Entry)
  (st : JSObject * list (list N)) : JSObject * list (list N) :=
  fold_left build_body entries st.

Definition buildManifest : Build :=
  let entries := walkDir listing SCRIPTS_DIR repoRoot in
  let (scripts, errors) := build_loop entries (empty_object, []) in
  {| manifest := {| manifest_version := 1; updated := now;
                    scripts := scripts |};
     count := size (own scripts);
     warnings := errors |}.

End Builder.

(** ** Vocabulary of the properties *)

(** The line feed, as a one-character string. *)
Definition LF : list N := [10].

(** A line the loop recognizes as a directive. *)
Definition recognized (line : list N) : Prop :=
  is_Some (DIRECTIVE_RE (trim line)).

(** A line that ends the scan once a directive has been seen: it does not
    match, is not blank and does not start with the comment marker. *)
Definition terminator (line : list N) : Prop :=
  DIRECTIVE_RE (trim line) = None
  /\ trim line <> []
  /\ startsWith (trim line) (js "#") = false.

(** The state the loop is in after [lines], [None] once it has left by
    [break]. *)
Fixpoint scan_to (lines : list (list N)) (st : Meta * bool)
  : option (Meta * bool) :=
  match lines with
  | [] => Some st
  | line :: rest =>
      match loop_body st line with
      | None => None
      | Some st' => scan_to rest st'
      end
  end.

(** A remainder of the arg grammar without its modifier: an identifier
    [c :: cs], a type [ty] and a quoted description [desc], separated by
    the white space [ws1] and [ws2]. *)
Definition arg_head (c : N) (cs ws1 ty ws2 desc : list N) : list N :=
  c :: cs ++ ws1 ++ ty ++ ws2 ++ dq ++ desc ++ dq.

(** The record the builder reads from the file of an entry. *)
Definition meta_of (readFileSync : list (list N) -> list N) (e : Entry)
  : Meta :=
  parseScript (readFileSync (fullPath e)).

(** A file that passes the two checks of the builder. *)
Definition accepted (readFileSync : list (list N) -> list N) (e : Entry)
  : bool :=
  truthy (name (meta_of readFileSync e))
  && truthy (description (meta_of readFileSync e)).

(** The object the builder stores for an accepted file. *)
Definition stored (readFileSync : list (list N) -> list N) (e : Entry)
  : JSON :=
  entry_object (meta_of readFileSync e) (relativePath e).

(** The warnings a file adds to the report. *)
Definition file_warnings (readFileSync : list (list N) -> list N)
  (e : Entry) : list (list N) :=
  if negb (truthy (name (meta_of readFileSync e))) then
    [relativePath e ++ js ": missing @name"]
  else if negb (truthy (description (meta_of readFileSync e))) then
    [relativePath e ++ js ": missing @description"]
  else [].

(** A nullable string that is [null] or not empty. *)
Definition null_or_nonempty (o : option (list N)) : Prop :=
  o = None \/ truthy o = true.

(** The tags that have a [case] in the switch of [parseScript]. *)
Definition switch_tags : list (list N) :=
  [ js "name"; js "description"; js "arg"; js "dep"; js "env";
    js "output"; js "header"; js "category"; js "tag"; js "author";
    js "platform"; js "example"; js "stdin"; js "version" ].

(** The thirteen tags the specification enumerates as the recognized
    grammar (its section 1). *)
Definition spec_tags : list (list N) :=
  [ js "name"; js "arg"; js "dep"; js "env"; js "output"; js "header";
    js "category"; js "tag"; js "author"; js "platform"; js "example";
    js "stdin"; js "version" ].


(** The keys of a manifest entry. *)
Definition entry_keys : list (list N) :=
  [ js "name"; js "description"; js "args"; js "deps"; js "envs";
    js "output"; js "header"; js "category"; js "tags"; js "author";
    js "platform"; js "examples"; js "path"; js "version" ].

(** A sample repository: the tool lives in [/repo/tools], the scripts
    directory holds [a.sh] and [b.sh]. *)
Definition sample_dirname : list (list N) := [js "repo"; js "tools"].

Definition sample_listing : list Dirent :=
  [File (js "a.sh"); File (js "b.sh")].

Definition sample_a : Entry :=
  {| fullPath := [js "repo"; js "scripts"; js "a.sh"];
     relativePath := js "scripts/a.sh" |}.

Definition sample_b : Entry :=
  {| fullPath := [js "repo"; js "scripts"; js "b.sh"];
     relativePath := js "scripts/b.sh" |}.

(** What [readFileSync] returns there: [first] for [a.sh], [second] for
    any other path. *)
Definition two_files (first second : list N) (p : list (list N)) : list N :=
  if decide (p = fullPath sample_a) then first else second.

(** Both files declare the name [given]; their descriptions differ. *)
Definition sample_read (given : list N) : list (list N) -> list N :=
  two_files
    (js "# @name " ++ given ++ LF ++ js "# @description first")
    (js "# @name " ++ given ++ LF ++ js "# @description second").

(** A file without a name, a file without a description and a file with
    both. *)
Definition sample_nameless : list N :=
  js "#!/bin/bash" ++ LF ++ js "# @description no name here".

Definition sample_undescribed : list N :=
  js "#!/bin/bash" ++ LF ++ js "# @name lonely".

Definition sample_good : list N :=
  js "#!/bin/bash" ++ LF ++ js "# @name good" ++ LF
  ++ js "# @description fine".

(** A string that does not start with white space, one that does not end
    with it (the empty string is both). *)
Definition head_ok (s : list N) : Prop :=
  match s with [] => True | c :: _ => is_space c = false end.

Definition last_ok (s : list N) : Prop := head_ok (rev s).

(** A file name the walk accepts. *)
Definition eligible (entry_name : list N) : bool :=
  endsWith entry_name (js ".sh") && negb (startsWith entry_name (js "_")).

(** The tags whose case assigns a field; the others append to one. *)
Definition assigning_tags : list (list N) :=
  [ js "name"; js "description"; js "output"; js "header"; js "category";
    js "author"; js "platform"; js "stdin"; js "version" ].

(** The four objects an arg line can push: required, optional, variadic,
    with a default. *)
Definition arg_form (v : JSON) : Prop :=
  exists nm ty desc,
    match nm with
    | [] => False
    | c :: cs =>
        is_word c = true /\ Forall (fun x => is_word_or_hyphen x = true) cs
    end
    /\ In ty [js "string"; js "number"; js "boolean"]
    /\ desc <> [] /\ Forall (fun c => is_not_quote c = true) desc
    /\ (v = JObj [ (js "name", JStr nm); (js "type", JStr ty);
                   (js "description", JStr desc);
                   (js "required", JBool true) ]
        \/ v = JObj [ (js "name", JStr nm); (js "type", JStr ty);
                      (js "description", JStr desc);
                      (js "required", JBool false) ]
        \/ v = JObj [ (js "name", JStr nm); (js "type", JStr ty);
                      (js "description", JStr desc);
                      (js "required", JBool false);
                      (js "variadic", JBool true) ]
        \/ exists dflt,
             dflt <> []
             /\ v = JObj [ (js "name", JStr nm); (js "type", JStr ty);
                           (js "description", JStr desc);
                           (js "required", JBool false);
                           (js "default", JStr dflt) ]).

(** The identifiers [ENV_RE] captures. *)
Definition identifier (v : list N) : Prop :=
  v <> [] /\ Forall (fun c => is_word c = true) v.

(** A value as the loop hands it to the switch: not empty, no white space
    at either end. *)
Definition trimmed_value (v : list N) : Prop :=
  v <> [] /\ head_ok v /\ last_ok v.

(** A nullable value that, when set, is a trimmed value. *)
Definition trimmed_opt (o : option (list N)) : Prop :=
  match o with None => True | Some v => trimmed_value v end.

(** A column name: not empty, free of white space. *)
Definition column (v : list N) : Prop :=
  v <> [] /\ Forall (fun c => is_space c = false) v.

(** The strings of a record are clean: scalars and elements of the lists
    are trimmed values, header columns are column names. *)
Definition clean_record (m : Meta) : Prop :=
  trimmed_opt (name m) /\ trimmed_opt (description m)
  /\ Forall trimmed_value (deps m)
  /\ trimmed_value (output m)
  /\ Forall column (header m)
  /\ trimmed_opt (category m)
  /\ Forall trimmed_value (tags m)
  /\ trimmed_opt (author m)
  /\ trimmed_value (platform m)
  /\ Forall trimmed_value (examples m)
  /\ trimmed_opt (version m).

(** The lists of [m'] continue those of [m]: what was declared is still
    there, in the same order, before what was added. *)
Definition extends (m m' : Meta) : Prop :=
  (exists l, args m' = args m ++ l)
  /\ (exists l, deps m' = deps m ++ l)
  /\ (exists l, envs m' = envs m ++ l)
  /\ (exists l, tags m' = tags m ++ l)
  /\ (exists l, examples m' = examples m ++ l).

(** The listing holds a file at the relative path [rel], through the
    directories the path names. *)
Fixpoint contains (listing : list Dirent) (rel : list (list N)) : Prop :=
  match rel with
  | [] => False
  | d :: rest =>
      match rest with
      | [] => In (File d) listing
      | _ :: _ =>
          exists sub, In (Directory d sub) listing /\ contains sub rest
      end
  end.

(** The files the builder rejects. *)
Definition rejected (readFileSync : list (list N) -> list N)
  (entries : list Entry) : list Entry :=
  List.filter (fun e => negb (accepted readFileSync e)) entries.

(** A scripts directory with a template, a readme and a directory of
    drafts. *)
Definition sample_tree : list Dirent :=
  [ Directory (js "_drafts") [File (js "x.sh")];
    File (js "_template.sh"); File (js "readme.md"); File (js "foo.sh") ].

(** The last accepted file of a list that declares the name [k]. *)
Fixpoint last_declaring (readFileSync : list (list N) -> list N)
  (k : list N) (entries : list Entry) : option Entry :=
  match entries with
  | [] => None
  | e :: rest =>
      match last_declaring readFileSync k rest with
      | Some e' => Some e'
      | None =>
          if accepted readFileSync e
             && match name (meta_of readFileSync e) with
                | Some n => str_eqb n k
                | None => false
                end
          then Some e else None
      end
  end.

(** A text with a carriage return in front of every line feed. *)
Definition with_carriage_returns (lines : list (list N)) : list (list N) :=
  map (fun line => line ++ [13]) lines.

(** The two shapes of an env remainder: an identifier alone, or an
    identifier, white space and a non-empty hint between double quotes. *)
Definition env_shape (value : list N) : Prop :=
  exists var,
    identifier var
    /\ (value = var
        \/ exists ws hint,
             ws <> [] /\ Forall (fun c => is_space c = true) ws
             /\ hint <> [] /\ Forall (fun c => is_not_quote c = true) hint
             /\ value = var ++ ws ++ dq ++ hint ++ dq).

(** Source literals are evaluated to their code units. *)
Ltac js_eval :=
  repeat match goal with
         | |- context [js ?s] =>
             let v := eval vm_compute in (js s) in change (js s) with v
         end.

(** ** Strings and classes *)

Lemma str_eqb_eq (a b : list N) : str_eqb a b = true <-> a = b.
Proof.
  revert b; induction a as [|x a IH]; intros [|y b]; simpl;
    try (split; [discriminate | congruence]); try tauto.
  rewrite andb_true_iff, N.eqb_eq, IH. split.
  - intros [-> ->]; reflexivity.
  - intros [= -> ->]; split; reflexivity.
Qed.

Lemma str_eqb_refl (a : list N) : str_eqb a a = true.
Proof. apply str_eqb_eq; reflexivity. Qed.

Lemma str_eqb_neq (a b : list N) : str_eqb a b = false <-> a <> b.
Proof.
  rewrite <- str_eqb_eq. destruct (str_eqb a b); split; congruence.
Qed.

(** Case analysis on the switch: in the branch of a tag, the tag is
    substituted. *)
Ltac switch_cases d :=
  unfold dispatch;
  repeat match goal with
         | |- context [if str_eqb d ?k then _ else _] =>
             let E := fresh "E" in
             destruct (str_eqb d k) eqn:E;
             [apply str_eqb_eq in E; subst d |]
         end.

(** [span] splits where the class stops. *)
Lemma span_app (p : N -> bool) (a b : list N) :
  Forall (fun c => p c = true) a ->
  match b with [] => True | c :: _ => p c = false end ->
  span p (a ++ b) = (a, b).
Proof.
  intros Ha Hb. induction Ha as [|c a Hc Ha IH]; simpl.
  - destruct b as [|c b]; simpl; [reflexivity | now rewrite Hb].
  - now rewrite Hc, IH.
Qed.

Lemma span_all (p : N -> bool) (a : list N) :
  Forall (fun c => p c = true) a -> span p a = (a, []).
Proof.
  intros Ha. rewrite <- (app_nil_r a) at 1. now apply span_app.
Qed.

Lemma span_spec (p : N -> bool) (s : list N) :
  s = fst (span p s) ++ snd (span p s)
  /\ Forall (fun c => p c = true) (fst (span p s))
  /\ match snd (span p s) with [] => True | c :: _ => p c = false end.
Proof.
  induction s as [|c s (IH1 & IH2 & IH3)]; simpl.
  - repeat split; constructor.
  - destruct (p c) eqn:Hc; simpl.
    + destruct (span p s) as [a b]; simpl in *. subst s.
      repeat split; [constructor; assumption | assumption].
    + repeat split; [constructor | assumption].
Qed.

(** The prefix [span] removes is the one of the class, whatever precedes. *)
Lemma span_app_l (p : N -> bool) (a b : list N) :
  Forall (fun c => p c = true) a ->
  span p (a ++ b) = (a ++ fst (span p b), snd (span p b)).
Proof.
  intros Ha. induction Ha as [|c a Hc Ha IH]; simpl.
  - now destruct (span p b).
  - now rewrite Hc, IH.
Qed.

Lemma many1_app (p : N -> bool) (a b : list N) :
  a <> [] ->
  Forall (fun c => p c = true) a ->
  match b with [] => True | c :: _ => p c = false end ->
  many1 p (a ++ b) = Some (a, b).
Proof.
  intros Hne Ha Hb. unfold many1. rewrite span_app by assumption.
  destruct a; [contradiction | reflexivity].
Qed.

Lemma many1_app_l (p : N -> bool) (a b : list N) :
  a <> [] ->
  Forall (fun c => p c = true) a ->
  many1 p (a ++ b) = Some (a ++ fst (span p b), snd (span p b)).
Proof.
  intros Hne Ha. unfold many1. rewrite span_app_l by assumption.
  destruct a; [contradiction | reflexivity].
Qed.

Lemma lits_app (p s : list N) : lits p (p ++ s) = Some s.
Proof.
  induction p as [|c p IH]; simpl; [reflexivity|].
  now rewrite N.eqb_refl.
Qed.

(** The classes a quantifier of the regexes runs into. *)
Lemma space_not_word (c : N) : is_space c = true -> is_word c = false.
Proof.
  unfold is_space, is_white_space, is_line_terminator, is_word.
  intros H.
  repeat (apply orb_true_iff in H; destruct H as [H|H]);
    try (apply andb_true_iff in H; destruct H as [H1 H2];
         apply N.leb_le in H1; apply N.leb_le in H2);
    try apply N.eqb_eq in H;
    repeat (apply orb_false_iff; split);
    try (apply andb_false_iff;
         rewrite !N.leb_gt; lia);
    try (apply N.eqb_neq; lia).
Qed.

Lemma space_not_word_or_hyphen (c : N) :
  is_space c = true -> is_word_or_hyphen c = false.
Proof.
  intros H. unfold is_word_or_hyphen.
  rewrite (space_not_word c H); simpl.
  apply N.eqb_neq; intros ->. discriminate H.
Qed.

Lemma head_space_not (q : N -> bool) (sp rest : list N) :
  (forall c, is_space c = true -> q c = false) ->
  sp <> [] -> Forall (fun c => is_space c = true) sp ->
  match sp ++ rest with [] => True | c :: _ => q c = false end.
Proof.
  intros Hq Hne Hsp. destruct sp as [|c sp]; [contradiction|].
  simpl. apply Hq. now inversion Hsp.
Qed.

(** ** The directive pattern *)

(** A line the pattern matches does not start with the shebang marker, so
    the shebang test never hides a directive. *)
Lemma directive_not_shebang (s : list N) :
  is_Some (DIRECTIVE_RE s) -> startsWith s (js "#!") = false.
Proof.
  intros [r Hr]. js_eval.
  destruct s as [|c s]; [reflexivity|]. cbn [startsWith].
  destruct (35 =? c) eqn:Hc; [|reflexivity].
  destruct s as [|d s]; [reflexivity|]. cbn [startsWith andb].
  destruct (33 =? d) eqn:Hd; [|reflexivity].
  apply N.eqb_eq in Hc, Hd. subst c d. discriminate Hr.
Qed.

(** The pattern on a line of the directive shape. *)
Lemma DIRECTIVE_RE_shape (ws tag sp rest : list N) :
  Forall (fun c => is_space c = true) ws ->
  tag <> [] -> Forall (fun c => is_word c = true) tag ->
  sp <> [] -> Forall (fun c => is_space c = true) sp ->
  DIRECTIVE_RE (js "#" ++ ws ++ js "@" ++ tag ++ sp ++ rest)
  = Some (tag, fst (span is_dot (trimStart rest))).
Proof.
  intros Hws Htag Hword Hsp Hspace. js_eval.
  unfold DIRECTIVE_RE, many. simpl.
  rewrite span_app by (assumption || reflexivity). simpl.
  rewrite many1_app
    by (try assumption; apply head_space_not; auto using space_not_word).
  simpl. rewrite many1_app_l by assumption. reflexivity.
Qed.

(** The pattern rejects whatever does not start with [#]. *)
Lemma DIRECTIVE_RE_marker (c : N) (s : list N) :
  c <> 35 -> DIRECTIVE_RE (c :: s) = None.
Proof.
  intros Hc. unfold DIRECTIVE_RE. simpl.
  apply N.eqb_neq in Hc. now rewrite Hc.
Qed.

(** ** Trimmed values *)

(** What is left of a class starts outside it. *)
Lemma trimStart_head (s : list N) :
  match trimStart s with [] => True | c :: _ => is_space c = false end.
Proof. unfold trimStart. apply span_spec. Qed.

Lemma trimStart_id (c : N) (s : list N) :
  is_space c = false -> trimStart (c :: s) = c :: s.
Proof. intros H. unfold trimStart. cbn [span]. now rewrite H. Qed.

(** A string that ends outside the class is not trimmed away. *)
Lemma trimStart_last (a : list N) (c : N) :
  is_space c = false -> trimStart (a ++ [c]) <> [].
Proof.
  intros Hc H. unfold trimStart in H.
  destruct (span_spec is_space (a ++ [c])) as (Heq & Hall & _).
  rewrite H, app_nil_r in Heq. rewrite <- Heq in Hall.
  rewrite List.Forall_forall in Hall.
  assert (Hin : In c (a ++ [c])) by (apply in_or_app; right; now left).
  specialize (Hall c Hin). congruence.
Qed.

(** A trimmed string does not end with white space. *)
Lemma trim_no_trailing (s a b : list N) :
  trim s = a ++ b -> b <> [] ->
  Forall (fun c => is_space c = true) b -> False.
Proof.
  unfold trim, trimEnd. intros Heq Hne Hb.
  apply (f_equal (@rev N)) in Heq. rewrite rev_involutive, rev_app_distr in Heq.
  pose proof (trimStart_head (rev (trimStart s))) as Hh. rewrite Heq in Hh.
  destruct b as [|x b _] using rev_ind; [contradiction|].
  rewrite rev_app_distr in Hh. cbn in Hh.
  rewrite List.Forall_forall in Hb.
  assert (Hin : In x (b ++ [x])) by (apply in_or_app; right; now left).
  specialize (Hb x Hin). congruence.
Qed.

Lemma trim_head_nonempty (c : N) (s : list N) :
  is_space c = false -> trim (c :: s) <> [].
Proof.
  intros Hc. unfold trim, trimEnd. rewrite trimStart_id by assumption.
  intros H. apply (f_equal (@rev N)) in H. rewrite rev_involutive in H.
  cbn [rev] in H. now apply trimStart_last in H.
Qed.

(** What the pattern matches: the shape of the line, the groups being the
    tag and the longest remainder free of line terminators. *)
Lemma DIRECTIVE_RE_inv (s directive rawValue : list N) :
  DIRECTIVE_RE s = Some (directive, rawValue) ->
  exists ws sp rest,
    s = js "#" ++ ws ++ js "@" ++ directive ++ sp ++ rawValue ++ rest
    /\ Forall (fun c => is_space c = true) ws
    /\ directive <> [] /\ Forall (fun c => is_word c = true) directive
    /\ sp <> [] /\ Forall (fun c => is_space c = true) sp
    /\ Forall (fun c => is_dot c = true) rawValue
    /\ match rawValue ++ rest with
       | [] => True
       | c :: _ => is_space c = false
       end
    /\ match rest with
       | [] => True
       | c :: _ => is_dot c = false
       end.
Proof.
  unfold DIRECTIVE_RE, many, many1. js_eval.
  destruct s as [|c0 s]; [discriminate|]. cbn [lit].
  destruct (c0 =? 35) eqn:H0; [|discriminate].
  apply N.eqb_eq in H0. subst c0. cbn [mbind option_bind].
  destruct (span_spec is_space s) as (Hs & Hws & _).
  destruct (span is_space s) as [ws s1]. cbn [fst snd] in *.
  destruct s1 as [|c1 s1]; [discriminate|]. cbn [lit].
  destruct (c1 =? 64) eqn:H1; [|discriminate].
  apply N.eqb_eq in H1. subst c1. cbn [mbind option_bind].
  destruct (span_spec is_word s1) as (Hs1 & Htag & _).
  destruct (span is_word s1) as [tag s2]. cbn [fst snd] in *.
  destruct tag as [|t tag]; [discriminate|]. cbn [mbind option_bind].
  destruct (span_spec is_space s2) as (Hs2 & Hsp & Hnext).
  destruct (span is_space s2) as [sp s3]. cbn [fst snd] in *.
  destruct sp as [|p sp]; [discriminate|]. cbn [mbind option_bind].
  destruct (span_spec is_dot s3) as (Hs3 & Hraw & Hrest).
  intros [= <- <-].
  exists ws, (p :: sp), (snd (span is_dot s3)).
  rewrite <- Hs3. subst s s1 s2.
  repeat split; try assumption; try discriminate.
Qed.

(** On a trimmed line the value of a directive is never empty. *)
Lemma directive_value_nonempty (line directive rawValue : list N) :
  DIRECTIVE_RE (trim line) = Some (directive, rawValue) ->
  trim rawValue <> [].
Proof.
  intros H.
  destruct (DIRECTIVE_RE_inv _ _ _ H)
    as (ws & sp & rest & Heq & _ & _ & _ & Hne & Hsp & _ & Hhead & Hrest).
  destruct rawValue as [|c raw].
  - exfalso. destruct rest as [|r rest].
    + rewrite !app_nil_r in Heq.
      apply (trim_no_trailing line (js "#" ++ ws ++ js "@" ++ directive) sp);
        [now rewrite <- !app_assoc | assumption | assumption].
    + cbn [app] in Hhead. unfold is_dot in Hrest. unfold is_space in Hhead.
      apply negb_false_iff in Hrest. rewrite Hrest, orb_true_r in Hhead.
      discriminate.
  - apply trim_head_nonempty. exact Hhead.
Qed.

(** What the loop does with a line the pattern matches. *)
Lemma loop_body_directive (meta : Meta) (seen : bool)
  (line directive rawValue : list N) :
  DIRECTIVE_RE (trim line) = Some (directive, rawValue) ->
  loop_body (meta, seen) line
  = Some (dispatch directive (trim rawValue) meta, true).
Proof.
  intros H. unfold loop_body.
  rewrite directive_not_shebang by (rewrite H; eexists; reflexivity).
  now rewrite H.
Qed.

(** What the loop does with a line the pattern does not match. *)
Lemma loop_body_other (meta : Meta) (seen : bool) (line : list N) :
  DIRECTIVE_RE (trim line) = None ->
  loop_body (meta, seen) line
  = if seen && negb (str_eqb (trim line) [])
       && negb (startsWith (trim line) (js "#"))
    then None else Some (meta, seen).
Proof.
  intros H. unfold loop_body. rewrite H.
  destruct (startsWith (trim line) (js "#!")) eqn:Hs; [|reflexivity].
  replace (startsWith (trim line) (js "#")) with true.
  - now rewrite andb_false_r.
  - symmetry. revert Hs. js_eval.
    destruct (trim line) as [|c t]; cbn [startsWith]; [discriminate|].
    destruct (35 =? c); [destruct t; reflexivity | discriminate].
Qed.

(** C1 (as amended): a trimmed line made of the marker [#], optional white
    space, [@], a tag of word characters, white space and a remainder is
    a directive for the parser, which dispatches on the tag with the
    trimmed remainder (up to its first line terminator); the same line
    behind the marker [//] is not a directive: it is skipped before any
    directive was seen and ends the scan after one. *)
Theorem directive_marker_hash_only (ws tag sp rest : list N) :
  Forall (fun c => is_space c = true) ws ->
  tag <> [] -> Forall (fun c => is_word c = true) tag ->
  sp <> [] -> Forall (fun c => is_space c = true) sp ->
  (forall line meta seen,
      trim line = js "#" ++ ws ++ js "@" ++ tag ++ sp ++ rest ->
      loop_body (meta, seen) line
      = Some (dispatch tag (trim (fst (span is_dot (trimStart rest)))) meta,
              true))
  /\ (forall line meta seen,
         trim line = js "//" ++ ws ++ js "@" ++ tag ++ sp ++ rest ->
         DIRECTIVE_RE (trim line) = None
         /\ loop_body (meta, seen) line
            = if seen then None else Some (meta, seen)).
Proof.
  intros Hws Htag Hword Hsp Hspace. split.
  - intros line meta seen Hline.
    apply loop_body_directive. rewrite Hline.
    now apply DIRECTIVE_RE_shape.
  - intros line meta seen Hline.
    assert (Hnone : DIRECTIVE_RE (trim line) = None).
    { rewrite Hline. js_eval. simpl. now apply DIRECTIVE_RE_marker. }
    split; [assumption|].
    rewrite loop_body_other by assumption. rewrite Hline.
    js_eval. simpl. now destruct seen.
Qed.

(** The line [# @name x] of the specification and its [//] twin. *)
Lemma directive_marker_hash_only_witness :
  (forall meta seen,
      loop_body (meta, seen) (js "# @name x")
      = Some (dispatch (js "name") (js "x") meta, true))
  /\ (forall meta seen,
         loop_body (meta, seen) (js "// @name x")
         = if seen then None else Some (meta, seen)).
Proof.
  assert (Hs : Forall (fun c => is_space c = true) (js " "))
    by (repeat constructor).
  assert (Hw : Forall (fun c => is_word c = true) (js "name"))
    by (repeat constructor).
  destruct (directive_marker_hash_only (js " ") (js "name") (js " ") (js "x")
              Hs ltac:(discriminate) Hw ltac:(discriminate) Hs) as [H1 H2].
  split.
  - intros meta seen. apply (H1 (js "# @name x")). reflexivity.
  - intros meta seen. apply (H2 (js "// @name x")). reflexivity.
Defined.

(** C1 (as stated) fails: [// @name x] is not recognized, [# @name x] is. *)
Lemma slash_marker_not_recognized :
  DIRECTIVE_RE (trim (js "// @name x")) = None
  /\ DIRECTIVE_RE (trim (js "# @name x")) = Some (js "name", js "x")
  /\ name (parseScript (js "// @name x")) = None
  /\ name (parseScript (js "# @name x")) = Some (js "x").
Proof. repeat split; reflexivity. Qed.

(** ** The arg grammar *)

Section ArgGrammar.

(** The parts of a remainder of the arg grammar. *)
Variables (c : N) (cs ws1 ty ws2 desc : list N).
Hypothesis Hc : is_word c = true.
Hypothesis Hcs : Forall (fun x => is_word_or_hyphen x = true) cs.
Hypothesis Hws1 : ws1 <> [] /\ Forall (fun x => is_space x = true) ws1.
Hypothesis Hty : In ty [js "string"; js "number"; js "boolean"].
Hypothesis Hws2 : ws2 <> [] /\ Forall (fun x => is_space x = true) ws2.
Hypothesis Hdesc :
  desc <> [] /\ Forall (fun x => is_not_quote x = true) desc.

Local Abbreviation remainder := (arg_head c cs ws1 ty ws2 desc).

Lemma arg_type_app (s : list N) : arg_type (ty ++ s) = Some (ty, s).
Proof.
  destruct Hty as [<-|[<-|[<-|[]]]]; reflexivity.
Qed.

Lemma ty_head (s : list N) :
  match ty ++ s with [] => True | x :: _ => is_space x = false end.
Proof.
  destruct Hty as [<-|[<-|[<-|[]]]]; reflexivity.
Qed.

(** Up to the closing quote the regex has one way through the head; what
    is left decides the groups 4 and 5. *)
Lemma ARG_RE_head (tl : list N) :
  ARG_RE (remainder ++ tl)
  = match many1 is_space tl ≫= (fun '(_, t) => arg_modifier t) with
    | Some (g4, g5) =>
        Some {| m1 := c :: cs; m2 := ty; m3 := desc; m4 := g4; m5 := g5 |}
    | None =>
        if at_end tl
        then Some {| m1 := c :: cs; m2 := ty; m3 := desc;
                     m4 := None; m5 := None |}
        else None
    end.
Proof.
  destruct Hws1 as [Hn1 Hs1], Hws2 as [Hn2 Hs2], Hdesc as [Hn3 Hs3].
  unfold arg_head, ARG_RE, many, dq.
  cbn [one app]. rewrite Hc. cbn [mbind option_bind].
  rewrite <- !app_assoc.
  rewrite span_app
    by (try assumption;
        apply head_space_not; auto using space_not_word_or_hyphen).
  rewrite many1_app by (try assumption; apply ty_head).
  cbn [mbind option_bind]. rewrite arg_type_app.
  cbn [mbind option_bind].
  rewrite many1_app by (try assumption; reflexivity).
  cbn [mbind option_bind app lit]. rewrite N.eqb_refl.
  cbn [mbind option_bind]. rewrite <- app_assoc.
  rewrite many1_app by (try assumption; reflexivity).
  cbn [mbind option_bind app lit]. rewrite N.eqb_refl.
  reflexivity.
Qed.

Lemma ARG_RE_plain :
  ARG_RE remainder
  = Some {| m1 := c :: cs; m2 := ty; m3 := desc;
            m4 := None; m5 := None |}.
Proof.
  rewrite <- (app_nil_r remainder), ARG_RE_head. reflexivity.
Qed.

Lemma ARG_RE_modifier (ws3 modifier : list N) g4 g5 :
  ws3 <> [] -> Forall (fun x => is_space x = true) ws3 ->
  match modifier with [] => True | x :: _ => is_space x = false end ->
  arg_modifier modifier = Some (g4, g5) ->
  ARG_RE (remainder ++ ws3 ++ modifier)
  = Some {| m1 := c :: cs; m2 := ty; m3 := desc; m4 := g4; m5 := g5 |}.
Proof.
  intros Hn Hs Hm Hmod. rewrite ARG_RE_head.
  rewrite many1_app by assumption.
  cbn [mbind option_bind]. now rewrite Hmod.
Qed.

Lemma arg_modifier_default (v : list N) :
  v <> [] -> Forall (fun x => is_dot x = true) v ->
  arg_modifier (js "=" ++ v) = Some (Some (js "=" ++ v), Some (js "=" ++ v)).
Proof.
  intros Hn Hv. js_eval. unfold arg_modifier.
  js_eval. cbn [lits lit app].
  change (61 =? 63) with false. change (61 =? 46) with false.
  change (61 =? 61) with true. cbv iota.
  unfold many1. rewrite span_all by assumption.
  destruct v; [contradiction | reflexivity].
Qed.

(** The record after an arg line of the grammar. *)
Lemma arg_modifier_record (meta : Meta) :
  dispatch (js "arg") remainder meta
  = set_args
      (args meta
       ++ [JObj [ (js "name", JStr (c :: cs)); (js "type", JStr ty);
                  (js "description", JStr desc);
                  (js "required", JBool true) ]]) meta
  /\ (forall ws3 v,
         ws3 <> [] -> Forall (fun x => is_space x = true) ws3 ->
         v <> [] -> Forall (fun x => is_dot x = true) v ->
         dispatch (js "arg") (remainder ++ ws3 ++ js "=" ++ v) meta
         = set_args
             (args meta
              ++ [JObj [ (js "name", JStr (c :: cs)); (js "type", JStr ty);
                         (js "description", JStr desc);
                         (js "required", JBool false);
                         (js "default", JStr v) ]]) meta)
  /\ (forall ws3,
         ws3 <> [] -> Forall (fun x => is_space x = true) ws3 ->
         dispatch (js "arg") (remainder ++ ws3 ++ js "...") meta
         = set_args
             (args meta
              ++ [JObj [ (js "name", JStr (c :: cs)); (js "type", JStr ty);
                         (js "description", JStr desc);
                         (js "required", JBool false);
                         (js "variadic", JBool true) ]]) meta).
Proof.
  split; [|split].
  - unfold dispatch. change (str_eqb (js "arg") (js "name")) with false.
    change (str_eqb (js "arg") (js "description")) with false.
    change (str_eqb (js "arg") (js "arg")) with true. cbv iota.
    rewrite ARG_RE_plain. reflexivity.
  - intros ws3 v Hn Hs Hnv Hv.
    unfold dispatch. change (str_eqb (js "arg") (js "name")) with false.
    change (str_eqb (js "arg") (js "description")) with false.
    change (str_eqb (js "arg") (js "arg")) with true. cbv iota.
    rewrite (ARG_RE_modifier ws3 (js "=" ++ v) _ _ Hn Hs
               ltac:(reflexivity) (arg_modifier_default v Hnv Hv)).
    reflexivity.
  - intros ws3 Hn Hs.
    unfold dispatch. change (str_eqb (js "arg") (js "name")) with false.
    change (str_eqb (js "arg") (js "description")) with false.
    change (str_eqb (js "arg") (js "arg")) with true. cbv iota.
    rewrite (ARG_RE_modifier ws3 (js "...") (Some (js "...")) None Hn Hs
               ltac:(reflexivity) ltac:(reflexivity)).
    reflexivity.
Qed.

(** C4 (as amended): a remainder of the arg grammar of the code, whose
    name starts with a word character, appends exactly one ArgSpec to
    [args].  Without a modifier it has [required = true] and neither a
    [variadic] nor a [default] key; with the modifier [=v] it has
    [required = false], [default] the whole of [v], up to the end of the
    line and blanks included, and no [variadic] key at all: the key is
    absent, not false; with the modifier [...] it has [variadic = true],
    [required = false] and no [default] key.  A remainder that starts with
    a hyphen is outside the grammar and appends nothing. *)
Theorem arg_modifier_fields (meta : Meta) :
  args (dispatch (js "arg") remainder meta)
  = args meta
    ++ [JObj [ (js "name", JStr (c :: cs)); (js "type", JStr ty);
               (js "description", JStr desc);
               (js "required", JBool true) ]]
  /\ (forall ws3 v,
         ws3 <> [] -> Forall (fun x => is_space x = true) ws3 ->
         v <> [] -> Forall (fun x => is_dot x = true) v ->
         let pushed :=
           JObj [ (js "name", JStr (c :: cs)); (js "type", JStr ty);
                  (js "description", JStr desc);
                  (js "required", JBool false);
                  (js "default", JStr v) ] in
         args (dispatch (js "arg") (remainder ++ ws3 ++ js "=" ++ v) meta)
         = args meta ++ [pushed]
         /\ get pushed (js "variadic") = None)
  /\ (forall ws3,
         ws3 <> [] -> Forall (fun x => is_space x = true) ws3 ->
         let pushed :=
           JObj [ (js "name", JStr (c :: cs)); (js "type", JStr ty);
                  (js "description", JStr desc);
                  (js "required", JBool false);
                  (js "variadic", JBool true) ] in
         args (dispatch (js "arg") (remainder ++ ws3 ++ js "...") meta)
         = args meta ++ [pushed]
         /\ get pushed (js "default") = None)
  /\ (forall rest,
         args (dispatch (js "arg") (js "-" ++ rest) meta) = args meta).
Proof.
  destruct (arg_modifier_record meta) as (H1 & H2 & H3).
  split; [|split; [|split]].
  - now rewrite H1.
  - intros ws3 v Hn Hs Hnv Hv. cbv zeta.
    rewrite (H2 ws3 v Hn Hs Hnv Hv). split; reflexivity.
  - intros ws3 Hn Hs. cbv zeta. rewrite (H3 ws3 Hn Hs). split; reflexivity.
  - intros rest. reflexivity.
Qed.

End ArgGrammar.

(** The remainders of the specification: [q string QUERY], the same with
    the default [=5] and with the ellipsis (QUERY is the quoted word
    query). *)
Lemma arg_modifier_fields_witness :
  let q := arg_head 113 [] (js " ") (js "string") (js " ") (js "query") in
  args (dispatch (js "arg") q meta0)
  = [JObj [ (js "name", JStr (js "q")); (js "type", JStr (js "string"));
            (js "description", JStr (js "query"));
            (js "required", JBool true) ]]
  /\ args (dispatch (js "arg") (q ++ js " =5") meta0)
     = [JObj [ (js "name", JStr (js "q")); (js "type", JStr (js "string"));
               (js "description", JStr (js "query"));
               (js "required", JBool false);
               (js "default", JStr (js "5")) ]]
  /\ args (dispatch (js "arg") (q ++ js " ...") meta0)
     = [JObj [ (js "name", JStr (js "q")); (js "type", JStr (js "string"));
               (js "description", JStr (js "query"));
               (js "required", JBool false);
               (js "variadic", JBool true) ]].
Proof.
  assert (Hs : Forall (fun x => is_space x = true) (js " "))
    by (repeat constructor).
  destruct (arg_modifier_fields 113 [] (js " ") (js "string") (js " ")
              (js "query"))
    with (meta := meta0) as (H1 & H2 & H3 & _).
  - reflexivity.
  - constructor.
  - split; [discriminate | exact Hs].
  - left; reflexivity.
  - split; [discriminate | exact Hs].
  - split; [discriminate | repeat constructor].
  - cbv zeta. split; [exact H1 | split].
    + apply (H2 (js " ") (js "5")); try discriminate;
        repeat constructor.
    + apply (H3 (js " ")); [discriminate | exact Hs].
Defined.

(** C4 (as stated) fails twice.  The ArgSpec of [count number N =5] (N the
    quoted words n items) has no [variadic] key, where the claim says
    false.  And [-x string D] (D a quoted d) is a remainder of the grammar
    the specification gives, whose name may be any run of word characters
    and hyphens, yet it yields no ArgSpec at all. *)
Lemma arg_claim_as_stated_fails :
  (exists pushed,
      args (parseScript
              (js "# @arg count number " ++ dq ++ js "n items" ++ dq
               ++ js " =5"))
      = [pushed]
      /\ get pushed (js "required") = Some (JBool false)
      /\ get pushed (js "default") = Some (JStr (js "5"))
      /\ get pushed (js "variadic") = None
      /\ get pushed (js "variadic") <> Some (JBool false))
  /\ Forall (fun x => is_word_or_hyphen x = true) (js "-x")
  /\ ARG_RE (js "-x string " ++ dq ++ js "d" ++ dq) = None
  /\ args (parseScript (js "# @arg -x string " ++ dq ++ js "d" ++ dq)) = [].
Proof.
  split; [|repeat split; repeat constructor].
  eexists. split; [reflexivity|]. repeat split; discriminate.
Qed.

(** The three arg lines of the specification, through the whole parser. *)
Example arg_line_default :
  args (parseScript
          (js "# @arg count number " ++ dq ++ js "n items" ++ dq ++ js " =5"))
  = [JObj [ (js "name", JStr (js "count")); (js "type", JStr (js "number"));
            (js "description", JStr (js "n items"));
            (js "required", JBool false);
            (js "default", JStr (js "5")) ]].
Proof. reflexivity. Qed.

Example arg_line_variadic :
  args (parseScript
          (js "# @arg files string " ++ dq ++ js "inputs" ++ dq ++ js " ..."))
  = [JObj [ (js "name", JStr (js "files")); (js "type", JStr (js "string"));
            (js "description", JStr (js "inputs"));
            (js "required", JBool false);
            (js "variadic", JBool true) ]].
Proof. reflexivity. Qed.

Example arg_line_required :
  args (parseScript (js "# @arg q string " ++ dq ++ js "query" ++ dq))
  = [JObj [ (js "name", JStr (js "q")); (js "type", JStr (js "string"));
            (js "description", JStr (js "query"));
            (js "required", JBool true) ]].
Proof. reflexivity. Qed.

Example arg_line_default_with_blanks :
  args (parseScript
          (js "# @arg sep string " ++ dq ++ js "separator" ++ dq
           ++ js " =a b  c"))
  = [JObj [ (js "name", JStr (js "sep")); (js "type", JStr (js "string"));
            (js "description", JStr (js "separator"));
            (js "required", JBool false);
            (js "default", JStr (js "a b  c")) ]].
Proof. reflexivity. Qed.

(** ** The scan *)

(** A turn of the loop either leaves the state as it is or dispatches a
    directive of the line. *)
Lemma loop_body_cases (st st' : Meta * bool) (line : list N) :
  loop_body st line = Some st' ->
  st' = st
  \/ exists directive rawValue,
       DIRECTIVE_RE (trim line) = Some (directive, rawValue)
       /\ st' = (dispatch directive (trim rawValue) (fst st), true).
Proof.
  destruct st as [meta seen].
  destruct (DIRECTIVE_RE (trim line)) as [[directive rawValue]|] eqn:Hd.
  - rewrite (loop_body_directive _ _ _ _ _ Hd). intros [= <-].
    right. exists directive, rawValue. split; reflexivity.
  - rewrite (loop_body_other _ _ _ Hd).
    destruct (_ && _); [discriminate|]. intros [= <-]. now left.
Qed.

(** Once a directive has been seen, it stays seen. *)
Lemma loop_body_seen (st st' : Meta * bool) (line : list N) :
  loop_body st line = Some st' -> snd st = true -> snd st' = true.
Proof.
  intros H Hs. destruct (loop_body_cases _ _ _ H) as [->|(d & r & _ & ->)];
    [assumption | reflexivity].
Qed.

(** The scan of a text in two parts. *)
Lemma scan_app (pre post : list (list N)) (st : Meta * bool) :
  scan (pre ++ post) st
  = match scan_to pre st with
    | Some st' => scan post st'
    | None => scan pre st
    end.
Proof.
  revert st. induction pre as [|line pre IH]; intros st; cbn [app scan scan_to].
  - reflexivity.
  - destruct (loop_body st line) as [st'|]; [apply IH | reflexivity].
Qed.


(** After a directive, a terminator ends the scan at the record reached
    before it. *)
Lemma scan_terminator (pre post : list (list N)) (l : list N)
  (st : Meta * bool) :
  snd st = true \/ Exists recognized pre ->
  terminator l ->
  scan (pre ++ l :: post) st = scan pre st.
Proof.
  intros Hseen (Hnone & Hne & Hhash).
  revert st Hseen. induction pre as [|line pre IH]; intros [meta seen] Hseen.
  - destruct Hseen as [Hseen|Hex]; [|inversion Hex].
    simpl in Hseen. subst seen. cbn [app scan].
    rewrite loop_body_other by assumption. rewrite Hhash.
    apply str_eqb_neq in Hne. rewrite Hne. reflexivity.
  - cbn [app scan].
    destruct (loop_body (meta, seen) line) as [st'|] eqn:Hb;
      [|reflexivity].
    apply IH. destruct Hseen as [Hseen|Hex].
    + left. eapply loop_body_seen; eassumption.
    + inversion Hex as [? ? [r Hr]|? ? Hex']; subst.
      * left. destruct r as [d raw].
        rewrite (loop_body_directive _ _ _ _ _ Hr) in Hb.
        now injection Hb as <-.
      * now right.
Qed.



(** ** The switch *)


(** A tag without a [case] changes nothing. *)
Lemma dispatch_other (directive value : list N) (meta : Meta) :
  ~ In directive switch_tags -> dispatch directive value meta = meta.
Proof.
  intros Hd. switch_cases directive;
    try solve [exfalso; apply Hd; unfold switch_tags; cbn [In];
               repeat (first [left; reflexivity | right])].
  reflexivity.
Qed.

(** An arg remainder outside the grammar changes nothing. *)
Lemma dispatch_arg_unmatched (value : list N) (meta : Meta) :
  ARG_RE value = None -> dispatch (js "arg") value meta = meta.
Proof.
  intros H. unfold dispatch.
  change (str_eqb (js "arg") (js "name")) with false.
  change (str_eqb (js "arg") (js "description")) with false.
  change (str_eqb (js "arg") (js "arg")) with true. cbv iota.
  now rewrite H.
Qed.

(** ** The required fields *)

Lemma dispatch_name (directive value : list N) (meta : Meta) :
  name (dispatch directive value meta)
  = if str_eqb directive (js "name") then Some value else name meta.
Proof.
  switch_cases directive; try reflexivity.
  - now destruct (ARG_RE value).
  - now destruct (ENV_RE value) as [[em1 em2]|].
Qed.

Lemma dispatch_description (directive value : list N) (meta : Meta) :
  description (dispatch directive value meta)
  = if str_eqb directive (js "description") then Some value
    else description meta.
Proof.
  switch_cases directive; try reflexivity.
  - now destruct (ARG_RE value).
  - now destruct (ENV_RE value) as [[em1 em2]|].
Qed.

Lemma scan_required_fields (lines : list (list N)) (st : Meta * bool) :
  null_or_nonempty (name (fst st)) ->
  null_or_nonempty (description (fst st)) ->
  null_or_nonempty (name (scan lines st))
  /\ null_or_nonempty (description (scan lines st)).
Proof.
  revert st. induction lines as [|line lines IH]; intros st Hn Hd;
    cbn [scan]; [now split|].
  destruct (loop_body st line) as [st'|] eqn:Hb; [|now split].
  destruct (loop_body_cases _ _ _ Hb) as [->|(d & raw & Hre & ->)];
    [now apply IH|].
  pose proof (directive_value_nonempty _ _ _ Hre) as Hv.
  assert (Ht : truthy (Some (trim raw)) = true)
    by (destruct (trim raw); [contradiction | reflexivity]).
  apply IH; cbn [fst].
  - rewrite dispatch_name. destruct (str_eqb d (js "name"));
      [now right | assumption].
  - rewrite dispatch_description. destruct (str_eqb d (js "description"));
      [now right | assumption].
Qed.

(** A parsed record lacks a name, for the test of the builder, exactly
    when its name is [null]; likewise for the description. *)
Lemma parsed_lacks_iff_null (content : list N) :
  (truthy (name (parseScript content)) = false
   <-> name (parseScript content) = None)
  /\ (truthy (description (parseScript content)) = false
      <-> description (parseScript content) = None).
Proof.
  destruct (scan_required_fields (split_lines content) (meta0, false))
    as [[Hn|Hn] [Hd|Hd]]; try (now left);
    fold (parseScript content) in *;
    split; split; intros H; try congruence;
    try (rewrite H; reflexivity); try (rewrite Hn; reflexivity);
    try (rewrite Hd; reflexivity); try (rewrite H in *; discriminate).
Qed.

(** ** The output field *)





(** ** Tags without a case *)

(** C10 (as amended): a line the pattern matches whose tag is none of the
    fourteen tags of the switch leaves every field of the record as it
    was and still counts as a directive: a terminator right after it ends
    the scan. *)
Theorem unknown_tag_counts (line directive rawValue : list N) (meta : Meta)
  (seen : bool) :
  DIRECTIVE_RE (trim line) = Some (directive, rawValue) ->
  ~ In directive switch_tags ->
  loop_body (meta, seen) line = Some (meta, true)
  /\ (forall t post, terminator t -> scan (line :: t :: post) (meta, seen) = meta).
Proof.
  intros Hre Htag.
  assert (Hb : loop_body (meta, seen) line = Some (meta, true)).
  { rewrite (loop_body_directive _ _ _ _ _ Hre).
    now rewrite dispatch_other. }
  split; [exact Hb|].
  intros t post Hterm. cbn [scan]. rewrite Hb.
  apply (scan_terminator [] post t (meta, true)); [now left | assumption].
Qed.

(** The line [# @flag x] of the specification, followed by code. *)
Lemma unknown_tag_counts_witness :
  loop_body (meta0, false) (js "# @flag x") = Some (meta0, true)
  /\ scan [js "# @flag x"; js "echo hi"; js "# @name late"] (meta0, false)
     = meta0.
Proof.
  destruct (unknown_tag_counts (js "# @flag x") (js "flag") (js "x")
              meta0 false) as [H1 H2].
  - reflexivity.
  - vm_compute. intros H.
    repeat (destruct H as [H|H]; [discriminate H|]). exact H.
  - split; [exact H1|]. apply H2.
    repeat split; vm_compute; discriminate || reflexivity.
Defined.

(** C10 (as stated) fails: [description] is not among the thirteen tags
    the specification enumerates, and its line changes the record. *)
Lemma description_is_a_fourteenth_tag :
  ~ In (js "description") spec_tags
  /\ length spec_tags = 13%nat
  /\ length switch_tags = 14%nat
  /\ loop_body (meta0, false) (js "# @description d")
     = Some (set_description (Some (js "d")) meta0, true)
  /\ set_description (Some (js "d")) meta0 <> meta0.
Proof.
  split; [|repeat split; try reflexivity; discriminate].
  vm_compute. intros H.
  repeat (destruct H as [H|H]; [discriminate H|]). exact H.
Qed.

(** ** Paths of the walk *)

Lemma path_join_proper (dir : list (list N)) (entry_name : list N) :
  proper_name entry_name = true ->
  path_join dir [entry_name] = dir ++ [entry_name].
Proof.
  unfold proper_name, path_join. cbn [fold_left].
  intros H. apply andb_true_iff in H. destruct H as [H1 H2].
  apply negb_true_iff in H1, H2. now rewrite H1, H2.
Qed.

(** Every entry of the walk carries its path relative to [base]. *)
Lemma walkEntry_relative (base : list (list N)) (entry : Dirent) :
  forall dir e,
    In e (walkEntry dir base entry) ->
    relativePath e = path_relative base (fullPath e).
Proof.
  induction entry as [entry_name|entry_name listing IH]
    using Dirent_nested_ind; intros dir e; cbn [walkEntry].
  - destruct (_ && _); [|intros []]. intros [<-|[]]. reflexivity.
  - rewrite in_flat_map. intros (x & Hx & He).
    rewrite List.Forall_forall in IH. exact (IH x Hx _ _ He).
Qed.

(** Every entry of the walk lies below the directory walked. *)
Lemma walkEntry_below (base : list (list N)) (entry : Dirent) :
  proper_entry entry = true ->
  forall dir e,
    In e (walkEntry dir base entry) ->
    exists rest, rest <> [] /\ fullPath e = dir ++ rest.
Proof.
  induction entry as [entry_name|entry_name listing IH]
    using Dirent_nested_ind; cbn [proper_entry walkEntry]; intros Hp dir e.
  - destruct (_ && _); [|intros []]. intros [<-|[]]. cbn [fullPath].
    exists [entry_name]. split; [discriminate | now apply path_join_proper].
  - apply andb_true_iff in Hp. destruct Hp as [Hn Hl].
    rewrite forallb_forall in Hl. rewrite List.Forall_forall in IH.
    rewrite in_flat_map. intros (x & Hx & He).
    destruct (IH x Hx (Hl x Hx) _ _ He) as (rest & Hne & Hfull).
    rewrite path_join_proper in Hfull by assumption.
    exists (entry_name :: rest). split; [discriminate|].
    now rewrite Hfull, <- app_assoc.
Qed.

Lemma relative_segs_below (from rest : list (list N)) :
  relative_segs from (from ++ rest) = rest.
Proof.
  induction from as [|f from IH]; cbn [relative_segs app map].
  - now destruct rest.
  - now rewrite str_eqb_refl.
Qed.

Lemma SCRIPTS_DIR_below_root (dirname : list (list N)) :
  SCRIPTS_DIR dirname = repoRoot dirname ++ [js "scripts"].
Proof. reflexivity. Qed.

(** Below the scripts directory, the path relative to the repository root
    is the one relative to the scripts directory behind [scripts/]. *)
Lemma path_relative_root (dirname rest : list (list N)) :
  rest <> [] ->
  path_relative (repoRoot dirname) (SCRIPTS_DIR dirname ++ rest)
  = js "scripts/" ++ path_relative (SCRIPTS_DIR dirname)
                       (SCRIPTS_DIR dirname ++ rest).
Proof.
  intros Hne. unfold path_relative.
  rewrite relative_segs_below.
  rewrite SCRIPTS_DIR_below_root, <- app_assoc, relative_segs_below.
  destruct rest; [contradiction | reflexivity].
Qed.

(** ** The aggregation loop *)

Section BuilderFacts.

Variable readFileSync : list (list N) -> list N.

Lemma build_body_accepted (st : JSObject * list (list N)) (e : Entry) :
  accepted readFileSync e = true ->
  build_body readFileSync st e
  = (assign (fst st) (property_key (name (meta_of readFileSync e)))
       (stored readFileSync e),
     snd st).
Proof.
  unfold accepted, build_body, stored, meta_of. destruct st as [s errs].
  intros H. apply andb_true_iff in H. destruct H as [-> ->]. reflexivity.
Qed.

Lemma build_body_rejected (st : JSObject * list (list N)) (e : Entry) :
  accepted readFileSync e = false ->
  build_body readFileSync st e
  = (fst st, snd st ++ file_warnings readFileSync e).
Proof.
  unfold accepted, build_body, file_warnings, meta_of.
  destruct st as [s errs].
  destruct (truthy (name _)); [|reflexivity].
  destruct (truthy (description _)); [discriminate | reflexivity].
Qed.

(** The warnings of a run are those of its files, in order; the mapping
    plays no part in them. *)
Lemma build_loop_warnings (entries : list Entry)
  (st : JSObject * list (list N)) :
  snd (build_loop readFileSync entries st)
  = snd st ++ flat_map (file_warnings readFileSync) entries.
Proof.
  revert st. induction entries as [|e entries IH]; intros st;
    cbn [build_loop fold_left flat_map].
  - now rewrite app_nil_r.
  - fold (build_loop readFileSync entries (build_body readFileSync st e)).
    rewrite IH. destruct (accepted readFileSync e) eqn:Ha.
    + rewrite build_body_accepted by assumption. cbn [snd].
      unfold file_warnings. unfold accepted in Ha.
      apply andb_true_iff in Ha. destruct Ha as [-> ->]. reflexivity.
    + rewrite build_body_rejected by assumption. cbn [snd].
      now rewrite <- app_assoc.
Qed.

(** Whatever the mapping holds was there at the start or is the object of
    an accepted file, under the name the file declares. *)
Lemma build_loop_own (entries : list Entry) (st : JSObject * list (list N))
  (k : list N) (v : JSON) :
  own (fst (build_loop readFileSync entries st)) !! k = Some v ->
  own (fst st) !! k = Some v
  \/ exists e,
       In e entries
       /\ accepted readFileSync e = true
       /\ name (meta_of readFileSync e) = Some k
       /\ v = stored readFileSync e.
Proof.
  revert st. induction entries as [|e entries IH]; intros st;
    cbn [build_loop fold_left]; [now left|].
  fold (build_loop readFileSync entries (build_body readFileSync st e)).
  intros H. destruct (IH _ H) as [H0|(e' & Hin & Ha & Hk & Hv)].
  - destruct (accepted readFileSync e) eqn:Ha.
    + rewrite build_body_accepted in H0 by assumption. cbn [fst] in H0.
      unfold assign in H0.
      destruct (str_eqb _ (js "__proto__")) eqn:Hp.
      * left. unfold stored, entry_object in H0. exact H0.
      * cbn [own] in H0. rewrite lookup_insert in H0.
        destruct (decide (property_key (name (meta_of readFileSync e)) = k))
          as [Hk|Hk].
        -- right. exists e. injection H0 as <-.
           split; [now left | split; [assumption | split; [|reflexivity]]].
           unfold accepted in Ha. apply andb_true_iff in Ha.
           destruct Ha as [Hn _].
           destruct (name (meta_of readFileSync e)); [|discriminate].
           now rewrite <- Hk.
        -- now left.
    + rewrite build_body_rejected in H0 by assumption. now left.
  - right. exists e'. split; [now right | auto].
Qed.

(** The last accepted file that declares a name holds the entry of that
    name, unless the name is [__proto__]. *)
Lemma last_declaration_wins (pre post : list Entry) (e : Entry)
  (st : JSObject * list (list N)) (k : list N) :
  accepted readFileSync e = true ->
  name (meta_of readFileSync e) = Some k ->
  k <> js "__proto__" ->
  (forall e', In e' post -> accepted readFileSync e' = true ->
              name (meta_of readFileSync e') <> Some k) ->
  own (fst (build_loop readFileSync (pre ++ e :: post) st)) !! k
  = Some (stored readFileSync e).
Proof.
  intros Ha Hk Hp Hpost. unfold build_loop.
  rewrite fold_left_app. cbn [fold_left].
  set (st1 := fold_left _ pre st). clearbody st1.
  rewrite build_body_accepted by assumption. rewrite Hk. cbn [property_key].
  assert (H1 : own (assign (fst st1) k (stored readFileSync e)) !! k
               = Some (stored readFileSync e)).
  { unfold assign. apply str_eqb_neq in Hp. rewrite Hp. cbn [own].
    apply lookup_insert_eq. }
  revert H1. generalize (assign (fst st1) k (stored readFileSync e)).
  generalize (snd st1). intros errs s.
  generalize (stored readFileSync e). intros v.
  revert s errs. clear Ha Hk e.
  induction post as [|e' post IH]; intros s errs Hs; cbn [fold_left];
    [exact Hs|].
  assert (Hpost' : forall e'', In e'' post ->
            accepted readFileSync e'' = true ->
            name (meta_of readFileSync e'') <> Some k)
    by (intros; apply Hpost; [now right | assumption]).
  destruct (accepted readFileSync e') eqn:Ha.
  - rewrite build_body_accepted by assumption. cbn [fst snd].
    apply IH; [assumption|].
    unfold assign. destruct (str_eqb _ (js "__proto__")); [exact Hs|].
    cbn [own]. rewrite lookup_insert_ne; [exact Hs|].
    intros Heq. apply (Hpost e' (or_introl eq_refl) Ha).
    unfold accepted in Ha. apply andb_true_iff in Ha. destruct Ha as [Hn _].
    destruct (name (meta_of readFileSync e')); [|discriminate].
    cbn [property_key] in Heq. now subst.
  - rewrite build_body_rejected by assumption. cbn [fst snd].
    apply IH; assumption.
Qed.

End BuilderFacts.

(** ** The builder *)

Lemma buildManifest_scripts (dirname : list (list N)) (listing : list Dirent)
  (readFileSync : list (list N) -> list N) (now : list N) :
  scripts (manifest (buildManifest dirname listing readFileSync now))
  = fst (build_loop readFileSync
           (walkDir listing (SCRIPTS_DIR dirname) (repoRoot dirname))
           (empty_object, [])).
Proof. unfold buildManifest. now destruct (build_loop _ _ _). Qed.

Lemma buildManifest_warnings (dirname : list (list N)) (listing : list Dirent)
  (readFileSync : list (list N) -> list N) (now : list N) :
  warnings (buildManifest dirname listing readFileSync now)
  = flat_map (file_warnings readFileSync)
      (walkDir listing (SCRIPTS_DIR dirname) (repoRoot dirname)).
Proof.
  unfold buildManifest.
  pose proof (build_loop_warnings readFileSync
                (walkDir listing (SCRIPTS_DIR dirname) (repoRoot dirname))
                (empty_object, [])) as H.
  destruct (build_loop _ _ _). exact H.
Qed.

(** Every entry of the mapping is the object of an accepted file of the
    walk, under the name the file declares. *)
Lemma buildManifest_own (dirname : list (list N)) (listing : list Dirent)
  (readFileSync : list (list N) -> list N) (now : list N)
  (k : list N) (v : JSON) :
  own (scripts (manifest (buildManifest dirname listing readFileSync now)))
    !! k = Some v ->
  exists e,
    In e (walkDir listing (SCRIPTS_DIR dirname) (repoRoot dirname))
    /\ accepted readFileSync e = true
    /\ name (meta_of readFileSync e) = Some k
    /\ v = stored readFileSync e.
Proof.
  rewrite buildManifest_scripts. intros H.
  apply build_loop_own in H. destruct H as [H|H]; [|exact H].
  cbn in H. rewrite lookup_empty in H. discriminate.
Qed.

(** C2 (as amended): the path of every entry of the manifest is the
    location of its file relative to the base the walk was given, which is
    the repository root, the parent of the directory scanned; relative to
    the directory scanned it is that location behind [scripts/]. *)
Theorem path_relative_to_repo_root (dirname : list (list N))
  (listing : list Dirent) (readFileSync : list (list N) -> list N)
  (now : list N) (k : list N) (v : JSON) :
  forallb proper_entry listing = true ->
  own (scripts (manifest (buildManifest dirname listing readFileSync now)))
    !! k = Some v ->
  exists e,
    In e (walkDir listing (SCRIPTS_DIR dirname) (repoRoot dirname))
    /\ v = stored readFileSync e
    /\ get v (js "path")
       = Some (JStr (path_relative (repoRoot dirname) (fullPath e)))
    /\ path_relative (repoRoot dirname) (fullPath e)
       = js "scripts/" ++ path_relative (SCRIPTS_DIR dirname) (fullPath e).
Proof.
  intros Hproper H.
  destruct (buildManifest_own _ _ _ _ _ _ H) as (e & Hin & _ & _ & ->).
  exists e. split; [assumption | split; [reflexivity|]].
  unfold walkDir in Hin. apply in_flat_map in Hin.
  destruct Hin as (entry & Hentry & He).
  rewrite forallb_forall in Hproper.
  split.
  - cbn. now rewrite (walkEntry_relative _ _ _ _ He).
  - destruct (walkEntry_below _ _ (Hproper _ Hentry) _ _ He)
      as (rest & Hne & ->).
    now apply path_relative_root.
Qed.

(** The sample repository, both files declaring [foo]. *)
Lemma path_relative_to_repo_root_witness :
  exists e,
    In e (walkDir sample_listing (SCRIPTS_DIR sample_dirname)
            (repoRoot sample_dirname))
    /\ stored (sample_read (js "foo")) sample_b
       = stored (sample_read (js "foo")) e
    /\ get (stored (sample_read (js "foo")) sample_b) (js "path")
       = Some (JStr (path_relative (repoRoot sample_dirname) (fullPath e)))
    /\ path_relative (repoRoot sample_dirname) (fullPath e)
       = js "scripts/"
         ++ path_relative (SCRIPTS_DIR sample_dirname) (fullPath e).
Proof.
  apply (path_relative_to_repo_root sample_dirname sample_listing
           (sample_read (js "foo")) (js "now") (js "foo")).
  - reflexivity.
  - vm_compute. reflexivity.
Defined.

(** C2 (as stated) fails: the path stored for [scripts/a.sh] is relative
    to the repository root, not to the directory scanned. *)
Lemma path_not_relative_to_scan_root :
  let b := buildManifest sample_dirname [File (js "a.sh")]
             (sample_read (js "foo")) (js "now") in
  own (scripts (manifest b)) !! js "foo"
  = Some (stored (sample_read (js "foo")) sample_a)
  /\ get (stored (sample_read (js "foo")) sample_a) (js "path")
     = Some (JStr (js "scripts/a.sh"))
  /\ path_relative (SCRIPTS_DIR sample_dirname) (fullPath sample_a)
     = js "a.sh"
  /\ js "scripts/a.sh" <> js "a.sh".
Proof.
  cbv zeta. repeat split; try (vm_compute; reflexivity). discriminate.
Qed.

(** ** Validation *)

(** An accepted file adds no warning. *)
Lemma file_warnings_accepted (readFileSync : list (list N) -> list N)
  (e : Entry) :
  accepted readFileSync e = true -> file_warnings readFileSync e = [].
Proof.
  unfold accepted, file_warnings. intros H.
  apply andb_true_iff in H. destruct H as [-> ->]. reflexivity.
Qed.

(** A file that fails a check adds its warning, leaves the mapping as it
    was and lets the loop go on. *)
Lemma build_loop_missing (readFileSync : list (list N) -> list N)
  (pre post : list Entry) (e : Entry) (st : JSObject * list (list N))
  (reason : list N) :
  file_warnings readFileSync e = [relativePath e ++ reason] ->
  build_loop readFileSync (pre ++ e :: post) st
  = build_loop readFileSync post
      (fst (build_loop readFileSync pre st),
       snd (build_loop readFileSync pre st) ++ [relativePath e ++ reason]).
Proof.
  intros Hw. unfold build_loop. rewrite fold_left_app. cbn [fold_left].
  f_equal. rewrite build_body_rejected; [now rewrite Hw|].
  destruct (accepted readFileSync e) eqn:Ha; [|reflexivity].
  now rewrite file_warnings_accepted in Hw.
Qed.

(** The mapping of a run does not depend on the warnings collected. *)
Lemma build_loop_fst_indep (readFileSync : list (list N) -> list N)
  (entries : list Entry) (s : JSObject) (errs errs' : list (list N)) :
  fst (build_loop readFileSync entries (s, errs))
  = fst (build_loop readFileSync entries (s, errs')).
Proof.
  revert s errs errs'. induction entries as [|e entries IH];
    intros s errs errs'; cbn [build_loop fold_left]; [reflexivity|].
  fold (build_loop readFileSync entries
          (build_body readFileSync (s, errs) e)).
  fold (build_loop readFileSync entries
          (build_body readFileSync (s, errs') e)).
  destruct (accepted readFileSync e) eqn:Ha.
  - rewrite !build_body_accepted by assumption. apply IH.
  - rewrite !build_body_rejected by assumption. apply IH.
Qed.

Lemma build_loop_app (readFileSync : list (list N) -> list N)
  (pre post : list Entry) (st : JSObject * list (list N)) :
  build_loop readFileSync (pre ++ post) st
  = build_loop readFileSync post (build_loop readFileSync pre st).
Proof. unfold build_loop. apply fold_left_app. Qed.

(** What a rejected file leaves in the result of the loop. *)
Lemma build_loop_rejected (readFileSync : list (list N) -> list N)
  (pre post : list Entry) (e : Entry) (st : JSObject * list (list N))
  (reason : list N) :
  file_warnings readFileSync e = [relativePath e ++ reason] ->
  snd (build_loop readFileSync (pre ++ e :: post) st)
  = snd (build_loop readFileSync pre st)
    ++ [relativePath e ++ reason]
    ++ flat_map (file_warnings readFileSync) post
  /\ fst (build_loop readFileSync (pre ++ e :: post) st)
     = fst (build_loop readFileSync (pre ++ post) st).
Proof.
  intros Hw. rewrite (build_loop_missing _ _ _ _ _ _ Hw). split.
  - rewrite build_loop_warnings. cbn [snd]. now rewrite <- app_assoc.
  - rewrite (build_loop_app readFileSync pre post).
    destruct (build_loop readFileSync pre st) as [s errs]. cbn [fst snd].
    apply build_loop_fst_indep.
Qed.

(** C3: a file whose record has no name adds exactly the warning
    [<relative-path>: missing @name] to the warnings of the run, after
    those of the files before it and before those of the files after it,
    whether or not it has a description; a file with a name and no
    description adds exactly [<relative-path>: missing @description] in
    the same place.  In both cases the file is left out of the mapping,
    which is the one of the run without the file, and the files that
    follow are processed. *)
Theorem missing_field_warning (readFileSync : list (list N) -> list N)
  (pre post : list Entry) (e : Entry) (st : JSObject * list (list N)) :
  (name (meta_of readFileSync e) = None ->
   snd (build_loop readFileSync (pre ++ e :: post) st)
   = snd (build_loop readFileSync pre st)
     ++ [relativePath e ++ js ": missing @name"]
     ++ flat_map (file_warnings readFileSync) post
   /\ fst (build_loop readFileSync (pre ++ e :: post) st)
      = fst (build_loop readFileSync (pre ++ post) st))
  /\ (name (meta_of readFileSync e) <> None ->
      description (meta_of readFileSync e) = None ->
      snd (build_loop readFileSync (pre ++ e :: post) st)
      = snd (build_loop readFileSync pre st)
        ++ [relativePath e ++ js ": missing @description"]
        ++ flat_map (file_warnings readFileSync) post
      /\ fst (build_loop readFileSync (pre ++ e :: post) st)
         = fst (build_loop readFileSync (pre ++ post) st)).
Proof.
  destruct (parsed_lacks_iff_null (readFileSync (fullPath e))) as [Hn Hd].
  fold (meta_of readFileSync e) in Hn, Hd.
  split.
  - intros Hnone. apply build_loop_rejected.
    unfold file_warnings. now rewrite (proj2 Hn Hnone).
  - intros Hsome Hnone. apply build_loop_rejected.
    unfold file_warnings.
    destruct (truthy (name (meta_of readFileSync e))) eqn:Ht.
    + now rewrite (proj2 Hd Hnone).
    + now destruct (Hsome (proj1 Hn eq_refl)).
Qed.

(** A file without a name, one without a description and an empty one,
    each followed by an accepted file: one warning for the first file,
    one entry for the second. *)
Lemma missing_field_warning_witness :
  (let read := two_files sample_nameless sample_good in
   snd (build_loop read [sample_a; sample_b] (empty_object, []))
   = [js "scripts/a.sh: missing @name"]
   /\ own (fst (build_loop read [sample_a; sample_b] (empty_object, [])))
      = {[ js "good" := stored read sample_b ]})
  /\ (let read := two_files sample_undescribed sample_good in
      snd (build_loop read [sample_a; sample_b] (empty_object, []))
      = [js "scripts/a.sh: missing @description"]
      /\ own (fst (build_loop read [sample_a; sample_b] (empty_object, [])))
         = {[ js "good" := stored read sample_b ]})
  /\ (let read := two_files [] sample_good in
      snd (build_loop read [sample_a; sample_b] (empty_object, []))
      = [js "scripts/a.sh: missing @name"]
      /\ own (fst (build_loop read [sample_a; sample_b] (empty_object, [])))
         = {[ js "good" := stored read sample_b ]}).
Proof.
  cbv zeta. split; [|split].
  - destruct (proj1 (missing_field_warning
                       (two_files sample_nameless sample_good) []
                       [sample_b] sample_a (empty_object, [])))
      as [Hw Hm]; [reflexivity|].
    cbn [app] in Hw, Hm. rewrite Hw, Hm.
    split; vm_compute; reflexivity.
  - destruct (proj2 (missing_field_warning
                       (two_files sample_undescribed sample_good) []
                       [sample_b] sample_a (empty_object, [])))
      as [Hw Hm]; [discriminate | reflexivity |].
    cbn [app] in Hw, Hm. rewrite Hw, Hm.
    split; vm_compute; reflexivity.
  - destruct (proj1 (missing_field_warning
                       (two_files [] sample_good) []
                       [sample_b] sample_a (empty_object, [])))
      as [Hw Hm]; [reflexivity|].
    cbn [app] in Hw, Hm. rewrite Hw, Hm.
    split; vm_compute; reflexivity.
Defined.

(** The run on a nameless [a.sh] and a good [b.sh]: one entry, one
    warning. *)
Example rejection_run :
  let b := buildManifest sample_dirname sample_listing
             (two_files sample_nameless sample_good) (js "now") in
  own (scripts (manifest b))
  = {[ js "good" := stored (two_files sample_nameless sample_good) sample_b ]}
  /\ count b = 1%nat
  /\ warnings b = [js "scripts/a.sh: missing @name"].
Proof. cbv zeta. repeat split; vm_compute; reflexivity. Qed.

(** ** Name collisions *)

(** Two accepted files that declare the same name, other than
    [__proto__]: the mapping holds, under that name, the object of the one
    processed later, and the warnings are those of the other files. *)
Lemma collision_last_wins (readFileSync : list (list N) -> list N)
  (pre mid post : list Entry) (e1 e2 : Entry)
  (st : JSObject * list (list N)) (k : list N) :
  accepted readFileSync e1 = true ->
  accepted readFileSync e2 = true ->
  name (meta_of readFileSync e2) = Some k ->
  k <> js "__proto__" ->
  (forall e', In e' post -> accepted readFileSync e' = true ->
              name (meta_of readFileSync e') <> Some k) ->
  own (fst (build_loop readFileSync (pre ++ e1 :: mid ++ e2 :: post) st))
    !! k = Some (stored readFileSync e2)
  /\ snd (build_loop readFileSync (pre ++ e1 :: mid ++ e2 :: post) st)
     = snd (build_loop readFileSync (pre ++ mid ++ post) st).
Proof.
  intros Ha1 Ha2 Hk Hp Hpost. split.
  - replace (pre ++ e1 :: mid ++ e2 :: post)
      with ((pre ++ e1 :: mid) ++ e2 :: post)
      by (now rewrite <- app_assoc).
    now apply last_declaration_wins.
  - rewrite !build_loop_warnings. f_equal.
    rewrite !flat_map_app. cbn [flat_map]. rewrite flat_map_app.
    cbn [flat_map].
    now rewrite !file_warnings_accepted by assumption.
Qed.

(** The collision of the specification: both files declare [foo]. *)
Example collision_foo :
  let b := buildManifest sample_dirname sample_listing
             (sample_read (js "foo")) (js "now") in
  own (scripts (manifest b))
  = {[ js "foo" := stored (sample_read (js "foo")) sample_b ]}
  /\ count b = 1%nat
  /\ warnings b = [].
Proof. cbv zeta. repeat split; vm_compute; reflexivity. Qed.

(** C7 at the name [__proto__]: both files are accepted, the mapping has
    no entry at all and the count is zero; the assignment has replaced the
    prototype of the mapping instead. *)
Theorem collision_proto_lost :
  let read := sample_read (js "__proto__") in
  let b := buildManifest sample_dirname sample_listing read (js "now") in
  accepted read sample_a = true
  /\ accepted read sample_b = true
  /\ name (meta_of read sample_a) = Some (js "__proto__")
  /\ name (meta_of read sample_b) = Some (js "__proto__")
  /\ own (scripts (manifest b)) !! js "__proto__" = None
  /\ own (scripts (manifest b)) = ∅
  /\ count b = 0%nat
  /\ warnings b = []
  /\ proto (scripts (manifest b)) = Some (stored read sample_b).
Proof. cbv zeta. repeat split; vm_compute; reflexivity. Qed.

(** ** Malformed arg lines *)

(** C8: an arg directive whose remainder is outside the grammar leaves
    the whole record, its args included, as it was, and the loop goes on
    with the next line as after any directive; the record of the text is
    the one the lines after it give from there.  The builder has two
    warnings only, for a missing name and a missing description: none
    reports the line. *)
Theorem malformed_arg_dropped (line rawValue : list N) (meta : Meta)
  (seen : bool) :
  DIRECTIVE_RE (trim line) = Some (js "arg", rawValue) ->
  ARG_RE (trim rawValue) = None ->
  loop_body (meta, seen) line = Some (meta, true)
  /\ (forall content pre post,
         split_lines content = pre ++ line :: post ->
         scan_to pre (meta0, false) = Some (meta, seen) ->
         parseScript content = scan post (meta, true))
  /\ (forall readFileSync e st,
         let errors := snd (build_body readFileSync st e) in
         errors = snd st
         \/ errors = snd st ++ [relativePath e ++ js ": missing @name"]
         \/ errors = snd st ++ [relativePath e ++ js ": missing @description"]).
Proof.
  intros Hre Harg.
  assert (Hb : loop_body (meta, seen) line = Some (meta, true)).
  { rewrite (loop_body_directive _ _ _ _ _ Hre).
    now rewrite dispatch_arg_unmatched. }
  split; [exact Hb | split].
  - intros content pre post Hsplit Hpre. unfold parseScript.
    rewrite Hsplit, scan_app, Hpre. cbn [scan]. now rewrite Hb.
  - intros readFileSync e [s errs]. unfold build_body. cbn [snd].
    destruct (truthy (name _)); cbn [negb]; [|right; left; reflexivity].
    destruct (truthy (description _)); cbn [negb];
      [left | right; right]; reflexivity.
Qed.

(** An arg line whose type is not one of the three, between a name and a
    description. *)
Lemma malformed_arg_dropped_witness :
  let bad := js "# @arg n integer " ++ dq ++ js "count" ++ dq in
  loop_body (set_name (Some (js "x")) meta0, true) bad
  = Some (set_name (Some (js "x")) meta0, true)
  /\ parseScript (js "# @name x" ++ LF ++ bad ++ LF ++ js "# @description d")
     = scan [js "# @description d"] (set_name (Some (js "x")) meta0, true).
Proof.
  cbv zeta.
  destruct (malformed_arg_dropped
              (js "# @arg n integer " ++ dq ++ js "count" ++ dq)
              (js "n integer " ++ dq ++ js "count" ++ dq)
              (set_name (Some (js "x")) meta0) true)
    as (H1 & H2 & _); [reflexivity | reflexivity |].
  split; [exact H1|].
  apply (H2 _ [js "# @name x"] [js "# @description d"]); reflexivity.
Defined.

(** ** The fields of an entry *)

(** C9: every entry of the mapping has exactly the fourteen keys name,
    description, args, deps, envs, output, header, category, tags, author,
    platform, examples, path and version, in that order.  The flag
    [stdin], which the parser sets to true exactly when the value of a
    stdin directive is the string [true], is no key of an entry, and the
    entry is the same whatever the flag. *)
Theorem entry_fields_without_stdin (dirname : list (list N))
  (listing : list Dirent) (readFileSync : list (list N) -> list N)
  (now : list N) :
  (forall k v,
      own (scripts (manifest (buildManifest dirname listing readFileSync now)))
        !! k = Some v ->
      keys v = entry_keys /\ get v (js "stdin") = None)
  /\ (forall value meta,
         stdin (dispatch (js "stdin") value meta) = true
         <-> value = js "true")
  /\ (forall flag meta relativePath,
         entry_object (set_stdin flag meta) relativePath
         = entry_object meta relativePath).
Proof.
  split; [|split].
  - intros k v H.
    destruct (buildManifest_own _ _ _ _ _ _ H) as (e & _ & _ & _ & ->).
    split; reflexivity.
  - intros value meta. apply str_eqb_eq.
  - reflexivity.
Qed.

(** The entry of the collision sample. *)
Lemma entry_fields_without_stdin_witness :
  keys (stored (sample_read (js "foo")) sample_b) = entry_keys
  /\ get (stored (sample_read (js "foo")) sample_b) (js "stdin") = None.
Proof.
  apply (proj1 (entry_fields_without_stdin sample_dirname sample_listing
                  (sample_read (js "foo")) (js "now")) (js "foo")).
  vm_compute. reflexivity.
Defined.

(** A script that reads its input: the flag is set, the entry does not
    show it. *)
Example stdin_flag_dropped :
  let content := js "# @name s" ++ LF ++ js "# @description d" ++ LF
                 ++ js "# @stdin true" in
  stdin (parseScript content) = true
  /\ keys (entry_object (parseScript content) (js "scripts/s.sh"))
     = entry_keys
  /\ ~ In (js "stdin") entry_keys.
Proof.
  cbv zeta. repeat split.
  vm_compute. intros H.
  repeat (destruct H as [H|H]; [discriminate H|]). exact H.
Qed.

(** * Further properties of the code *)

(** ** Texts without directives, and lines that do not count *)

Lemma scan_of_scan_to (lines : list (list N)) (st st' : Meta * bool) :
  scan_to lines st = Some st' -> scan lines st = fst st'.
Proof.
  intros H. rewrite <- (app_nil_r lines), scan_app, H. reflexivity.
Qed.



(** A line the pattern does not match and that is blank or starts with
    [#] leaves the state of the loop alone, wherever it comes. *)
Lemma loop_body_transparent (st : Meta * bool) (line : list N) :
  DIRECTIVE_RE (trim line) = None ->
  trim line = [] \/ startsWith (trim line) (js "#") = true ->
  loop_body st line = Some st.
Proof.
  intros Hre Hl. destruct st as [meta seen].
  rewrite loop_body_other by assumption.
  destruct Hl as [-> | ->]; [|now rewrite andb_false_r].
  cbn. now rewrite andb_false_r.
Qed.

(** X2: blank lines, the shebang and comments that are no directive never
    change the record, before, inside or after the directive block: the
    text parses as it does without the line. *)
Theorem skipped_line_transparent (content content' : list N)
  (pre post : list (list N)) (line : list N) :
  split_lines content = pre ++ line :: post ->
  split_lines content' = pre ++ post ->
  DIRECTIVE_RE (trim line) = None ->
  trim line = [] \/ startsWith (trim line) (js "#") = true ->
  parseScript content = parseScript content'.
Proof.
  intros Hc Hc' Hre Hl. unfold parseScript. rewrite Hc, Hc', !scan_app.
  destruct (scan_to pre (meta0, false)) as [st|]; [|reflexivity].
  cbn [scan]. now rewrite loop_body_transparent.
Qed.

(** A comment between two directives. *)
Lemma skipped_line_transparent_witness :
  parseScript (js "# @name a" ++ LF ++ js "# plain comment" ++ LF
               ++ js "# @description d")
  = parseScript (js "# @name a" ++ LF ++ js "# @description d").
Proof.
  apply (skipped_line_transparent _ _ [js "# @name a"]
           [js "# @description d"] (js "# plain comment"));
    try reflexivity.
  right. reflexivity.
Defined.

(** ** The directive pattern, both ways *)

Lemma trimStart_fix (s : list N) : head_ok s -> trimStart s = s.
Proof.
  destruct s as [|c s]; [reflexivity|]. apply trimStart_id.
Qed.

(** X3: the pattern matches a string, with the groups [directive] and
    [rawValue], exactly when the string is [#], white space, [@], the
    tag of word characters, at least one white space and the value, the
    value being free of line terminators, not starting with white space
    and followed by nothing or by a line terminator. *)
Theorem DIRECTIVE_RE_iff (s directive rawValue : list N) :
  DIRECTIVE_RE s = Some (directive, rawValue)
  <-> exists ws sp rest,
      s = js "#" ++ ws ++ js "@" ++ directive ++ sp ++ rawValue ++ rest
      /\ Forall (fun c => is_space c = true) ws
      /\ directive <> [] /\ Forall (fun c => is_word c = true) directive
      /\ sp <> [] /\ Forall (fun c => is_space c = true) sp
      /\ Forall (fun c => is_dot c = true) rawValue
      /\ head_ok (rawValue ++ rest)
      /\ match rest with [] => True | c :: _ => is_dot c = false end.
Proof.
  split; [apply DIRECTIVE_RE_inv|].
  intros (ws & sp & rest & -> & Hws & Hd & Hword & Hsp & Hspace & Hraw
          & Hhead & Hrest).
  rewrite DIRECTIVE_RE_shape by assumption.
  rewrite trimStart_fix by assumption.
  now rewrite span_app.
Qed.

(** ** The last name wins *)

(** Lines that are no name directive keep the name. *)
Lemma scan_name_kept (lines : list (list N)) (st : Meta * bool) :
  (forall line rawValue,
      In line lines ->
      DIRECTIVE_RE (trim line) <> Some (js "name", rawValue)) ->
  name (scan lines st) = name (fst st).
Proof.
  revert st. induction lines as [|line lines IH]; intros st Hno;
    cbn [scan]; [reflexivity|].
  destruct (loop_body st line) as [st'|] eqn:Hb; [|reflexivity].
  rewrite IH by (intros l r Hin; apply Hno; now right).
  destruct (loop_body_cases _ _ _ Hb) as [->|(d & raw & Hre & ->)];
    [reflexivity|].
  cbn [fst]. rewrite dispatch_name.
  destruct (str_eqb d (js "name")) eqn:Hd; [|reflexivity].
  apply str_eqb_eq in Hd. subst d.
  now destruct (Hno line raw (or_introl eq_refl)).
Qed.

(** X18: when a name directive is reached by the scan and no later line
    is a name directive, the name of the record is the trimmed value of
    that line, whatever names were declared before it. *)
Theorem last_name_wins (content : list N) (pre post : list (list N))
  (line rawValue : list N) (st : Meta * bool) :
  split_lines content = pre ++ line :: post ->
  scan_to pre (meta0, false) = Some st ->
  DIRECTIVE_RE (trim line) = Some (js "name", rawValue) ->
  (forall l r, In l post -> DIRECTIVE_RE (trim l) <> Some (js "name", r)) ->
  name (parseScript content) = Some (trim rawValue).
Proof.
  intros Hc Hpre Hre Hpost. unfold parseScript.
  rewrite Hc, scan_app, Hpre. cbn [scan]. destruct st as [meta seen].
  rewrite (loop_body_directive _ _ _ _ _ Hre).
  rewrite scan_name_kept by assumption.
  cbn [fst]. now rewrite dispatch_name.
Qed.

(** Two names, then a description. *)
Lemma last_name_wins_witness :
  name (parseScript (js "# @name first" ++ LF ++ js "# @name  second " ++ LF
                     ++ js "# @description d"))
  = Some (js "second").
Proof.
  apply (last_name_wins _ [js "# @name first"] [js "# @description d"]
           (js "# @name  second ") (js "second")
           (set_name (Some (js "first")) meta0, true));
    try reflexivity.
  intros l r [<-|[]]. vm_compute. discriminate.
Defined.

(** ** What an arg line can push *)

Lemma many1_inv (p : N -> bool) (s a r : list N) :
  many1 p s = Some (a, r) ->
  s = a ++ r /\ a <> [] /\ Forall (fun c => p c = true) a
  /\ match r with [] => True | c :: _ => p c = false end.
Proof.
  unfold many1. destruct (span_spec p s) as (Heq & Hall & Hnext).
  destruct (span p s) as [[|x a'] r']; [discriminate|].
  intros [= <- <-]. cbn [fst snd] in *.
  repeat split; try assumption. discriminate.
Qed.

Lemma arg_type_inv (s ty r : list N) :
  arg_type s = Some (ty, r) ->
  In ty [js "string"; js "number"; js "boolean"].
Proof.
  unfold arg_type.
  destruct (lits (js "string") s); [intros [= <- _]; now left|].
  destruct (lits (js "number") s); [intros [= <- _]; right; now left|].
  destruct (lits (js "boolean") s); [|discriminate].
  intros [= <- _]. right; right; now left.
Qed.

Lemma lits_inv (p s r : list N) : lits p s = Some r -> s = p ++ r.
Proof.
  revert s. induction p as [|c p IH]; intros s; cbn [lits app].
  - now intros [= ->].
  - destruct s as [|x s]; [discriminate|]. cbn [lit].
    destruct (x =? c) eqn:Hx; [|discriminate].
    apply N.eqb_eq in Hx. subst x. intros H. now rewrite (IH _ H).
Qed.

(** The groups 4 and 5 of a match: no modifier, the question mark, the
    ellipsis, or one and the same default behind its equals sign. *)
Lemma arg_modifier_inv (t : list N) (g4 g5 : option (list N)) :
  arg_modifier t = Some (g4, g5) ->
  (g4 = Some (js "?") /\ g5 = None)
  \/ (g4 = Some (js "...") /\ g5 = None)
  \/ exists v, v <> [] /\ g4 = Some (js "=" ++ v) /\ g5 = Some (js "=" ++ v).
Proof.
  unfold arg_modifier. intros H.
  repeat match type of H with
         | context [match ?x with _ => _ end] => destruct x eqn:?
         end;
    try discriminate H; injection H as <- <-;
    try (left; split; reflexivity);
    try (right; left; split; reflexivity).
  all: right; right.
  all: match goal with
       | Hl : lit 61 ?t0 = Some ?r, Hm : many1 is_dot ?r = Some _ |- _ =>
           exists r; apply many1_inv in Hm;
           destruct Hm as (Heq & Hne & _);
           rewrite app_nil_r in Heq; rewrite <- Heq in Hne;
           destruct t0 as [|c t']; [discriminate Hl|]; cbn [lit] in Hl;
           destruct (c =? 61) eqn:Hc; [|discriminate Hl];
           apply N.eqb_eq in Hc; subst c; injection Hl as Hl; subst t'
       end.
  all: split; [assumption | split; reflexivity].
Qed.

(** What [ARG_RE] captures. *)
Lemma ARG_RE_inv (s : list N) (m : ArgMatch) :
  ARG_RE s = Some m ->
  match m1 m with
  | [] => False
  | c :: cs =>
      is_word c = true /\ Forall (fun x => is_word_or_hyphen x = true) cs
  end
  /\ In (m2 m) [js "string"; js "number"; js "boolean"]
  /\ m3 m <> [] /\ Forall (fun c => is_not_quote c = true) (m3 m)
  /\ ((m4 m = None /\ m5 m = None)
      \/ (m4 m = Some (js "?") /\ m5 m = None)
      \/ (m4 m = Some (js "...") /\ m5 m = None)
      \/ exists v, v <> [] /\ m4 m = Some (js "=" ++ v)
                   /\ m5 m = Some (js "=" ++ v)).
Proof.
  unfold ARG_RE, many.
  destruct (one is_word s) as [[c s0]|] eqn:Hone; [|discriminate].
  assert (Hc : is_word c = true).
  { destruct s as [|x s']; [discriminate|]. cbn [one] in Hone.
    destruct (is_word x) eqn:Hx; [|discriminate]. now injection Hone as <- _. }
  cbn [mbind option_bind].
  destruct (span_spec is_word_or_hyphen s0) as (_ & Hcs & _).
  destruct (span is_word_or_hyphen s0) as [cs s1]. cbn [fst] in Hcs.
  destruct (many1 is_space s1) as [[sp1 s2]|]; [|discriminate].
  cbn [mbind option_bind].
  destruct (arg_type s2) as [[ty s3]|] eqn:Hty; [|discriminate].
  cbn [mbind option_bind].
  destruct (many1 is_space s3) as [[sp2 s4]|]; [|discriminate].
  cbn [mbind option_bind].
  destruct (lit 34 s4) as [s5|]; [|discriminate].
  cbn [mbind option_bind].
  destruct (many1 is_not_quote s5) as [[desc s6]|] eqn:Hdesc; [|discriminate].
  cbn [mbind option_bind].
  destruct (lit 34 s6) as [s7|]; [|discriminate].
  cbn [mbind option_bind].
  apply arg_type_inv in Hty. apply many1_inv in Hdesc.
  destruct Hdesc as (_ & Hne & Hall & _).
  destruct (many1 is_space s7) as [[sp3 t]|]; cbn [mbind option_bind].
  - destruct (arg_modifier t) as [[g4 g5]|] eqn:Hmod.
    + intros [= <-]. cbn.
      repeat split; try assumption; try discriminate.
      right. exact (arg_modifier_inv _ _ _ Hmod).
    + destruct (at_end s7); [|discriminate]. intros [= <-]. cbn.
      repeat split; try assumption; try discriminate. now left.
  - destruct (at_end s7); [|discriminate]. intros [= <-]. cbn.
    repeat split; try assumption; try discriminate. now left.
Qed.

Lemma arg_object_form (s : list N) (m : ArgMatch) :
  ARG_RE s = Some m -> arg_form (arg_object m).
Proof.
  intros H. destruct (ARG_RE_inv _ _ H) as (Hn & Hty & Hd & Hq & Hmod).
  exists (m1 m), (m2 m), (m3 m).
  repeat split; try assumption.
  unfold arg_object.
  destruct Hmod as [[-> ->]|[[-> ->]|[[-> ->]|(v & Hv & -> & ->)]]].
  - now left.
  - right; now left.
  - right; right; now left.
  - right; right; right. exists v. split; [assumption|].
    destruct v; [contradiction | reflexivity].
Qed.

Lemma dispatch_args (directive value : list N) (meta : Meta) :
  args (dispatch directive value meta)
  = if str_eqb directive (js "arg") then
      match ARG_RE value with
      | Some m => args meta ++ [arg_object m]
      | None => args meta
      end
    else args meta.
Proof.
  switch_cases directive; try reflexivity.
  - now destruct (ARG_RE value).
  - now destruct (ENV_RE value) as [[em1 em2]|].
Qed.

Lemma scan_args_form (lines : list (list N)) (st : Meta * bool) :
  Forall arg_form (args (fst st)) ->
  Forall arg_form (args (scan lines st)).
Proof.
  revert st. induction lines as [|line lines IH]; intros st Hst;
    cbn [scan]; [assumption|].
  destruct (loop_body st line) as [st'|] eqn:Hb; [|assumption].
  apply IH.
  destruct (loop_body_cases _ _ _ Hb) as [->|(d & raw & _ & ->)];
    [assumption|].
  cbn [fst]. rewrite dispatch_args.
  destruct (str_eqb d (js "arg")); [|assumption].
  destruct (ARG_RE (trim raw)) as [m|] eqn:Hm; [|assumption].
  apply Forall_app. split; [assumption|].
  constructor; [|constructor]. exact (arg_object_form _ _ Hm).
Qed.

(** X4: every element of [args] of a parsed record is an object of one of
    four forms: required; optional; variadic; with a default.  Its name
    starts with a word character and goes on with word characters and
    hyphens, its type is one of string, number and boolean, [required] is
    true exactly in the first form, and [variadic] and [default] never
    occur together. *)
Theorem parsed_args_form (content : list N) :
  Forall arg_form (args (parseScript content)).
Proof. apply scan_args_form. constructor. Qed.

(** X5: a remainder of the arg grammar followed by the question mark
    appends one optional argument to [args]: [required] is false and the
    object has neither a [variadic] nor a [default] key. *)
Theorem arg_question_mark (c : N) (cs ws1 ty ws2 desc ws3 : list N)
  (meta : Meta) :
  is_word c = true ->
  Forall (fun x => is_word_or_hyphen x = true) cs ->
  ws1 <> [] /\ Forall (fun x => is_space x = true) ws1 ->
  In ty [js "string"; js "number"; js "boolean"] ->
  ws2 <> [] /\ Forall (fun x => is_space x = true) ws2 ->
  desc <> [] /\ Forall (fun x => is_not_quote x = true) desc ->
  ws3 <> [] /\ Forall (fun x => is_space x = true) ws3 ->
  let pushed :=
    JObj [ (js "name", JStr (c :: cs)); (js "type", JStr ty);
           (js "description", JStr desc);
           (js "required", JBool false) ] in
  args (dispatch (js "arg")
          (arg_head c cs ws1 ty ws2 desc ++ ws3 ++ js "?") meta)
  = args meta ++ [pushed]
  /\ get pushed (js "variadic") = None
  /\ get pushed (js "default") = None.
Proof.
  intros Hc Hcs Hws1 Hty Hws2 Hdesc [Hn3 Hs3]. cbv zeta.
  split; [|split; reflexivity].
  unfold dispatch. change (str_eqb (js "arg") (js "name")) with false.
  change (str_eqb (js "arg") (js "description")) with false.
  change (str_eqb (js "arg") (js "arg")) with true. cbv iota.
  rewrite (ARG_RE_modifier c cs ws1 ty ws2 desc Hc Hcs Hws1 Hty Hws2 Hdesc
             ws3 (js "?") (Some (js "?")) None Hn3 Hs3
             ltac:(reflexivity) ltac:(reflexivity)).
  reflexivity.
Qed.

(** The line [verbose boolean ENABLE ?] of the authoring guide. *)
Lemma arg_question_mark_witness :
  args (dispatch (js "arg")
          (arg_head 118 (js "erbose") (js " ") (js "boolean") (js " ")
             (js "Enable verbose output") ++ js " " ++ js "?") meta0)
  = [JObj [ (js "name", JStr (js "verbose"));
            (js "type", JStr (js "boolean"));
            (js "description", JStr (js "Enable verbose output"));
            (js "required", JBool false) ]].
Proof.
  assert (Hs : Forall (fun x => is_space x = true) (js " "))
    by (repeat constructor).
  apply (arg_question_mark 118 (js "erbose") (js " ") (js "boolean")
           (js " ") (js "Enable verbose output") (js " ") meta0).
  - reflexivity.
  - repeat constructor.
  - split; [discriminate | exact Hs].
  - right; right; left; reflexivity.
  - split; [discriminate | exact Hs].
  - split; [discriminate | repeat constructor].
  - split; [discriminate | exact Hs].
Defined.

(** ** Environment variables *)

Lemma ENV_RE_bare (var : list N) :
  identifier var -> ENV_RE var = Some (var, None).
Proof.
  intros [Hne Hw]. unfold ENV_RE, many1.
  rewrite span_all by assumption.
  destruct var; [contradiction | reflexivity].
Qed.

Lemma ENV_RE_hint (var ws hint : list N) :
  identifier var ->
  ws <> [] -> Forall (fun c => is_space c = true) ws ->
  hint <> [] -> Forall (fun c => is_not_quote c = true) hint ->
  ENV_RE (var ++ ws ++ dq ++ hint ++ dq) = Some (var, Some hint).
Proof.
  intros [Hne Hw] Hn Hs Hh Hq. unfold ENV_RE, dq.
  rewrite many1_app
    by (try assumption; apply head_space_not; auto using space_not_word).
  cbn [mbind option_bind].
  rewrite many1_app by (try assumption; reflexivity).
  cbn [mbind option_bind app lit]. rewrite N.eqb_refl.
  cbn [mbind option_bind].
  rewrite many1_app by (try assumption; reflexivity).
  cbn [mbind option_bind app lit]. rewrite N.eqb_refl.
  reflexivity.
Qed.

Lemma dispatch_env (value : list N) (meta : Meta) :
  dispatch (js "env") value meta
  = match ENV_RE value with
    | Some (em1, _) => set_envs (envs meta ++ [em1]) meta
    | None => meta
    end.
Proof. reflexivity. Qed.

(** X6: an env directive appends the identifier alone: with a quoted hint
    behind it or without, the record is the same, so the hint is lost. *)
Theorem env_hint_dropped (var ws hint : list N) (meta : Meta) :
  identifier var ->
  ws <> [] -> Forall (fun c => is_space c = true) ws ->
  hint <> [] -> Forall (fun c => is_not_quote c = true) hint ->
  dispatch (js "env") (var ++ ws ++ dq ++ hint ++ dq) meta
  = set_envs (envs meta ++ [var]) meta
  /\ dispatch (js "env") var meta = set_envs (envs meta ++ [var]) meta.
Proof.
  intros Hv Hn Hs Hh Hq. rewrite !dispatch_env.
  now rewrite ENV_RE_hint, ENV_RE_bare.
Qed.

(** The token line of the authoring guide. *)
Lemma env_hint_dropped_witness :
  envs (dispatch (js "env")
          (js "GITHUB_TOKEN" ++ js " " ++ dq ++ js "Create at github" ++ dq)
          meta0)
  = [js "GITHUB_TOKEN"]
  /\ envs (dispatch (js "env") (js "GITHUB_TOKEN") meta0)
     = [js "GITHUB_TOKEN"].
Proof.
  destruct (env_hint_dropped (js "GITHUB_TOKEN") (js " ")
              (js "Create at github") meta0) as [H1 H2].
  - split; [discriminate | repeat constructor].
  - discriminate.
  - repeat constructor.
  - discriminate.
  - repeat constructor.
  - now rewrite H1, H2.
Defined.

Lemma ENV_RE_inv (s var : list N) (hint : option (list N)) :
  ENV_RE s = Some (var, hint) -> identifier var.
Proof.
  unfold ENV_RE.
  destruct (many1 is_word s) as [[v r]|] eqn:Hm; [|discriminate].
  cbn [mbind option_bind]. apply many1_inv in Hm.
  destruct Hm as (_ & Hne & Hall & _).
  destruct (_ ≫= _); [intros [= <- _]; now split|].
  destruct (at_end r); [|discriminate]. intros [= <- _]. now split.
Qed.

Lemma dispatch_envs (directive value : list N) (meta : Meta) :
  envs (dispatch directive value meta)
  = if str_eqb directive (js "env") then
      match ENV_RE value with
      | Some (em1, _) => envs meta ++ [em1]
      | None => envs meta
      end
    else envs meta.
Proof.
  switch_cases directive; try reflexivity.
  - now destruct (ARG_RE value).
  - now destruct (ENV_RE value) as [[em1 em2]|].
Qed.

Lemma scan_envs_identifiers (lines : list (list N)) (st : Meta * bool) :
  Forall identifier (envs (fst st)) ->
  Forall identifier (envs (scan lines st)).
Proof.
  revert st. induction lines as [|line lines IH]; intros st Hst;
    cbn [scan]; [assumption|].
  destruct (loop_body st line) as [st'|] eqn:Hb; [|assumption].
  apply IH.
  destruct (loop_body_cases _ _ _ Hb) as [->|(d & raw & _ & ->)];
    [assumption|].
  cbn [fst]. rewrite dispatch_envs.
  destruct (str_eqb d (js "env")); [|assumption].
  destruct (ENV_RE (trim raw)) as [[em1 em2]|] eqn:Hm; [|assumption].
  apply Forall_app. split; [assumption|].
  constructor; [|constructor]. exact (ENV_RE_inv _ _ _ Hm).
Qed.

Lemma lit_inv (c : N) (s r : list N) : lit c s = Some r -> s = c :: r.
Proof.
  destruct s as [|x s]; [discriminate|]. cbn [lit].
  destruct (x =? c) eqn:Hx; [|discriminate].
  apply N.eqb_eq in Hx. now intros [= ->]; subst.
Qed.

Lemma at_end_inv (s : list N) : at_end s = true -> s = [].
Proof. destruct s; [reflexivity | discriminate]. Qed.

(** What [ENV_RE] matches has one of the two shapes. *)
Lemma ENV_RE_shape (s var : list N) (hint : option (list N)) :
  ENV_RE s = Some (var, hint) -> env_shape s.
Proof.
  intros H. pose proof (ENV_RE_inv _ _ _ H) as Hid. exists var.
  split; [exact Hid|]. revert H. unfold ENV_RE.
  destruct (many1 is_word s) as [[v r]|] eqn:Hm; [|discriminate].
  cbn [mbind option_bind]. apply many1_inv in Hm.
  destruct Hm as (Hs & _ & _ & _).
  destruct (many1 is_space r) as [[ws t]|] eqn:Hws; cbn [mbind option_bind].
  - apply many1_inv in Hws. destruct Hws as (Hr & Hne & Hsp & _).
    destruct (lit 34 t) as [t1|] eqn:Hq1; cbn [mbind option_bind].
    + apply lit_inv in Hq1.
      destruct (many1 is_not_quote t1) as [[h t2]|] eqn:Hh;
        cbn [mbind option_bind].
      * apply many1_inv in Hh. destruct Hh as (Ht1 & Hhne & Hhq & _).
        destruct (lit 34 t2) as [t3|] eqn:Hq2; cbn [mbind option_bind].
        -- apply lit_inv in Hq2.
           destruct (at_end t3) eqn:He.
           ++ apply at_end_inv in He. intros [= <- _]. right.
              exists ws, h. subst. repeat split; assumption.
           ++ destruct (at_end r) eqn:Her; [|discriminate].
              apply at_end_inv in Her. subst r. now destruct ws.
        -- destruct (at_end r) eqn:Her; [|discriminate].
           apply at_end_inv in Her. subst r. now destruct ws.
      * destruct (at_end r) eqn:Her; [|discriminate].
        apply at_end_inv in Her. subst r. now destruct ws.
    + destruct (at_end r) eqn:Her; [|discriminate].
      apply at_end_inv in Her. subst r. now destruct ws.
  - destruct (at_end r) eqn:Her; [|discriminate].
    apply at_end_inv in Her. intros [= <- _]. left.
    subst. now rewrite app_nil_r.
Qed.

(** A remainder of one of the two shapes is matched. *)
Lemma env_shape_matched (value : list N) :
  env_shape value -> is_Some (ENV_RE value).
Proof.
  intros (var & Hid & [->|(ws & hint & Hn & Hs & Hh & Hq & ->)]).
  - rewrite ENV_RE_bare by assumption. eexists; reflexivity.
  - rewrite ENV_RE_hint by assumption. eexists; reflexivity.
Qed.

(** X7: every element of [envs] of a parsed record is an identifier, a
    non-empty string of word characters; and an env directive whose
    remainder has neither of the two shapes (an identifier alone, or an
    identifier followed by white space and a quoted non-empty hint) adds
    nothing: the record stays as it was. *)
Theorem parsed_envs_identifiers (content : list N) :
  Forall identifier (envs (parseScript content))
  /\ (forall value meta,
         ~ env_shape value ->
         dispatch (js "env") value meta = meta
         /\ envs (dispatch (js "env") value meta) = envs meta).
Proof.
  split; [apply scan_envs_identifiers; constructor|].
  intros value meta Hshape.
  assert (H : dispatch (js "env") value meta = meta).
  { rewrite dispatch_env.
    destruct (ENV_RE value) as [[em1 em2]|] eqn:He; [|reflexivity].
    destruct Hshape. exact (ENV_RE_shape _ _ _ He). }
  split; [exact H | now rewrite H].
Qed.

(** An env line whose hint is not quoted. *)
Lemma parsed_envs_identifiers_witness :
  envs (dispatch (js "env") (js "API_KEY from the settings page") meta0) = [].
Proof.
  apply (proj2 (parsed_envs_identifiers [])
           (js "API_KEY from the settings page") meta0).
  intros Hs. apply env_shape_matched in Hs.
  destruct Hs as [x Hx]. vm_compute in Hx. discriminate.
Defined.

(** ** Clean strings *)

Lemma trim_last_ok (s : list N) : last_ok (trim s).
Proof.
  unfold last_ok, trim, trimEnd. rewrite rev_involutive.
  apply trimStart_head.
Qed.

Lemma trim_head_ok (s : list N) : head_ok (trim s).
Proof.
  unfold trim, trimEnd.
  pose proof (trimStart_head s) as Ha.
  destruct (span_spec is_space (rev (trimStart s))) as (Heq & _ & _).
  fold (trimStart (rev (trimStart s))) in Heq.
  apply (f_equal (@rev N)) in Heq.
  rewrite rev_involutive, rev_app_distr in Heq.
  destruct (rev (trimStart (rev (trimStart s)))) as [|c r]; [exact I|].
  rewrite Heq in Ha. exact Ha.
Qed.

Lemma trim_fix (v : list N) : head_ok v -> last_ok v -> trim v = v.
Proof.
  intros Hh Hl. unfold trim, trimEnd.
  rewrite (trimStart_fix v Hh), (trimStart_fix (rev v) Hl).
  apply rev_involutive.
Qed.

(** The value of a directive of a trimmed line. *)
Lemma directive_value_trimmed (line directive rawValue : list N) :
  DIRECTIVE_RE (trim line) = Some (directive, rawValue) ->
  trimmed_value (trim rawValue).
Proof.
  intros H. split; [exact (directive_value_nonempty _ _ _ H)|].
  split; [apply trim_head_ok | apply trim_last_ok].
Qed.

Lemma last_ok_tail (c : N) (r : list N) :
  r <> [] -> last_ok (c :: r) -> last_ok r.
Proof.
  unfold last_ok. cbn [rev]. intros Hr.
  destruct (rev r) as [|x y] eqn:Hrev; [|trivial].
  apply (f_equal (@rev N)) in Hrev. rewrite rev_involutive in Hrev.
  contradiction.
Qed.

(** No piece of a split holds white space. *)
Lemma split_ws_from_no_space (s : list N) (in_run : bool) :
  Forall (Forall (fun c => is_space c = false)) (split_ws_from in_run s).
Proof.
  revert in_run. induction s as [|c r IH]; intros in_run; cbn [split_ws_from].
  - repeat constructor.
  - destruct (is_space c) eqn:Hc.
    + destruct in_run; [apply IH|]. constructor; [constructor | apply IH].
    + specialize (IH false).
      destruct (split_ws_from false r) as [|l ls].
      * repeat constructor. assumption.
      * inversion IH; subst. constructor; [|assumption].
        constructor; assumption.
Qed.

(** In a string that does not end with white space, only the first piece
    of a split can be empty, and only behind leading white space. *)
Lemma split_ws_from_nonempty (s : list N) :
  last_ok s ->
  forall in_run,
    Forall (fun p => p <> []) (tail (split_ws_from in_run s))
    /\ (s <> [] -> in_run = true \/ head_ok s ->
        Forall (fun p => p <> []) (split_ws_from in_run s)).
Proof.
  induction s as [|c r IH]; intros Hl in_run; cbn [split_ws_from].
  - split; [constructor | intros []; reflexivity].
  - destruct r as [|d r'].
    + unfold last_ok in Hl. cbn in Hl. rewrite Hl. cbn.
      split; [constructor | intros _ _; repeat constructor; discriminate].
    + assert (Hr : d :: r' <> []) by discriminate.
      specialize (IH (last_ok_tail _ _ Hr Hl)).
      destruct (is_space c) eqn:Hc.
      * destruct (IH true) as [Ht Hall].
        specialize (Hall Hr (or_introl eq_refl)).
        destruct in_run.
        -- split; [exact Ht | intros _ _; exact Hall].
        -- split; [exact Hall|].
           intros _ [Hf|Hh]; [discriminate | cbn in Hh; congruence].
      * destruct (IH false) as [Ht _].
        destruct (split_ws_from false (d :: r')) as [|l ls].
        -- split; [constructor | intros _ _; repeat constructor; discriminate].
        -- cbn [tail] in *.
           split; [exact Ht|]. intros _ _.
           constructor; [discriminate | exact Ht].
Qed.

Lemma split_ws_columns (v : list N) :
  trimmed_value v -> Forall column (split_ws v).
Proof.
  intros (Hne & Hh & Hl). unfold split_ws.
  pose proof (split_ws_from_no_space v false) as Hns.
  destruct (split_ws_from_nonempty v Hl false) as [_ Hall].
  specialize (Hall Hne (or_intror Hh)).
  rewrite List.Forall_forall in *. intros p Hp. split; auto.
Qed.

Lemma meta0_clean : clean_record meta0.
Proof.
  unfold clean_record, meta0; cbn.
  repeat split; try constructor; try discriminate; reflexivity.
Qed.

Lemma dispatch_clean (directive value : list N) (meta : Meta) :
  trimmed_value value -> clean_record meta ->
  clean_record (dispatch directive value meta).
Proof.
  intros Hv (H1 & H2 & H3 & H4 & H5 & H6 & H7 & H8 & H9 & H10 & H11).
  pose proof (split_ws_columns value Hv) as Hcols.
  switch_cases directive;
    try destruct (ARG_RE value); try destruct (ENV_RE value) as [[? ?]|];
    unfold clean_record; cbn;
    repeat split; try assumption; try apply Hv; try apply H4; try apply H9;
    try (apply Forall_app; split; [assumption | repeat constructor; apply Hv]).
Qed.

Lemma scan_clean (lines : list (list N)) (st : Meta * bool) :
  clean_record (fst st) -> clean_record (scan lines st).
Proof.
  revert st. induction lines as [|line lines IH]; intros st Hst;
    cbn [scan]; [assumption|].
  destruct (loop_body st line) as [st'|] eqn:Hb; [|assumption].
  apply IH.
  destruct (loop_body_cases _ _ _ Hb) as [->|(d & raw & Hre & ->)];
    [assumption|].
  cbn [fst]. apply dispatch_clean; [|assumption].
  exact (directive_value_trimmed _ _ _ Hre).
Qed.

(** X8: in a parsed record every string is clean: name, description,
    category, author and version when they are set, output and platform,
    and every element of deps, tags and examples are non-empty and carry
    no white space at either end. *)
Theorem parsed_values_trimmed (content : list N) :
  let m := parseScript content in
  trimmed_opt (name m) /\ trimmed_opt (description m)
  /\ trimmed_opt (category m) /\ trimmed_opt (author m)
  /\ trimmed_opt (version m)
  /\ trimmed_value (output m) /\ trimmed_value (platform m)
  /\ Forall trimmed_value (deps m)
  /\ Forall trimmed_value (tags m)
  /\ Forall trimmed_value (examples m).
Proof.
  destruct (scan_clean (split_lines content) (meta0, false) meta0_clean)
    as (H1 & H2 & H3 & H4 & H5 & H6 & H7 & H8 & H9 & H10 & H11).
  cbv zeta. fold (parseScript content) in *. tauto.
Qed.

(** X9: the header of a parsed record holds column names only: none is
    empty and none contains white space, however the columns of the
    header line are spaced. *)
Theorem parsed_header_columns (content : list N) :
  Forall column (header (parseScript content)).
Proof.
  apply (scan_clean (split_lines content) (meta0, false) meta0_clean).
Qed.

(** ** How directives compose *)

Lemma extends_refl (m : Meta) : extends m m.
Proof. repeat split; exists []; now rewrite app_nil_r. Qed.

Lemma extends_trans (m1 m2 m3 : Meta) :
  extends m1 m2 -> extends m2 m3 -> extends m1 m3.
Proof.
  intros ([a1 A1] & [b1 B1] & [c1 C1] & [d1 D1] & [e1 E1])
         ([a2 A2] & [b2 B2] & [c2 C2] & [d2 D2] & [e2 E2]).
  repeat split;
    [exists (a1 ++ a2) | exists (b1 ++ b2) | exists (c1 ++ c2)
     | exists (d1 ++ d2) | exists (e1 ++ e2)];
    rewrite app_assoc; congruence.
Qed.

Lemma dispatch_extends (directive value : list N) (meta : Meta) :
  extends meta (dispatch directive value meta).
Proof.
  switch_cases directive;
    try destruct (ARG_RE value); try destruct (ENV_RE value) as [[? ?]|];
    try apply extends_refl;
    repeat split; cbn;
    first [now eexists | exists []; now rewrite app_nil_r].
Qed.

Lemma scan_extends (lines : list (list N)) (st : Meta * bool) :
  extends (fst st) (scan lines st).
Proof.
  revert st. induction lines as [|line lines IH]; intros st; cbn [scan];
    [apply extends_refl|].
  destruct (loop_body st line) as [st'|] eqn:Hb; [|apply extends_refl].
  apply (extends_trans _ (fst st')); [|apply IH].
  destruct (loop_body_cases _ _ _ Hb) as [->|(d & raw & _ & ->)];
    [apply extends_refl | apply dispatch_extends].
Qed.

(** X10: lines added at the end of a text never remove or reorder what
    was declared: the args, deps, envs, tags and examples of the record
    of the first lines are a prefix of those of the whole text. *)
Theorem appended_lines_extend (content : list N)
  (pre post : list (list N)) :
  split_lines content = pre ++ post ->
  extends (scan pre (meta0, false)) (parseScript content).
Proof.
  intros Hc. unfold parseScript. rewrite Hc, scan_app.
  destruct (scan_to pre (meta0, false)) as [st|] eqn:Hpre;
    [|apply extends_refl].
  rewrite (scan_of_scan_to _ _ _ Hpre). apply scan_extends.
Qed.

(** Two deps, then a third. *)
Lemma appended_lines_extend_witness :
  extends (scan [js "# @dep jq"; js "# @dep curl"] (meta0, false))
    (parseScript (js "# @dep jq" ++ LF ++ js "# @dep curl" ++ LF
                  ++ js "# @dep jq")).
Proof.
  apply (appended_lines_extend _ [js "# @dep jq"; js "# @dep curl"]
           [js "# @dep jq"]).
  reflexivity.
Defined.

(** X11: a tag that assigns a field overwrites: of two directives of the
    same tag in a row only the second counts.  The tags dep, tag and
    example append instead: both values stay, in order, duplicates
    included. *)
Theorem repeated_directive (v1 v2 : list N) (meta : Meta) :
  (forall directive,
      In directive assigning_tags ->
      dispatch directive v2 (dispatch directive v1 meta)
      = dispatch directive v2 meta)
  /\ deps (dispatch (js "dep") v2 (dispatch (js "dep") v1 meta))
     = deps meta ++ [v1; v2]
  /\ tags (dispatch (js "tag") v2 (dispatch (js "tag") v1 meta))
     = tags meta ++ [v1; v2]
  /\ examples (dispatch (js "example") v2 (dispatch (js "example") v1 meta))
     = examples meta ++ [v1; v2].
Proof.
  split;
    [|repeat split;
      match goal with
      | |- ?f (dispatch ?d _ (dispatch _ _ _)) = _ =>
          change (f (dispatch d v2 (dispatch d v1 meta)))
            with ((f meta ++ [v1]) ++ [v2])
      end; now rewrite <- app_assoc].
  intros directive Hd. unfold assigning_tags in Hd. cbn [In] in Hd.
  repeat (destruct Hd as [<-|Hd]; [reflexivity|]). destruct Hd.
Qed.

(** The output format declared twice. *)
Lemma repeated_directive_witness :
  dispatch (js "output") (js "json")
    (dispatch (js "output") (js "tsv") meta0)
  = dispatch (js "output") (js "json") meta0.
Proof.
  apply (proj1 (repeated_directive (js "tsv") (js "json") meta0)).
  unfold assigning_tags. cbn [In]. right; right; left; reflexivity.
Defined.

(** X12: directives of different tags commute: each tag has a field of
    its own, so the order in which a script declares, say, its name and
    its deps does not matter. *)
Theorem dispatch_commute (d1 d2 v1 v2 : list N) (meta : Meta) :
  d1 <> d2 ->
  dispatch d1 v1 (dispatch d2 v2 meta)
  = dispatch d2 v2 (dispatch d1 v1 meta).
Proof.
  intros Hne.
  switch_cases d1; switch_cases d2;
    try (exfalso; apply Hne; reflexivity);
    repeat match goal with
           | |- context [ARG_RE ?v] => destruct (ARG_RE v)
           | |- context [ENV_RE ?v] => destruct (ENV_RE v) as [[? ?]|]
           end;
    reflexivity.
Qed.

(** A name and a dep, in both orders. *)
Lemma dispatch_commute_witness :
  dispatch (js "name") (js "x") (dispatch (js "dep") (js "jq") meta0)
  = dispatch (js "dep") (js "jq") (dispatch (js "name") (js "x") meta0).
Proof.
  apply dispatch_commute. discriminate.
Defined.

(** ** What the walk finds *)

Lemma eligible_proper (entry_name : list N) :
  endsWith entry_name (js ".sh") = true -> proper_name entry_name = true.
Proof.
  intros H. unfold proper_name.
  destruct (str_eqb entry_name (js "..")) eqn:E1;
    [apply str_eqb_eq in E1; subst; discriminate H|].
  destruct (str_eqb entry_name (js ".")) eqn:E2;
    [apply str_eqb_eq in E2; subst; discriminate H|].
  destruct (str_eqb entry_name []) eqn:E3;
    [apply str_eqb_eq in E3; subst; discriminate H|].
  reflexivity.
Qed.

Lemma contains_incl (l1 l2 : list Dirent) (rel : list (list N)) :
  (forall x, In x l1 -> In x l2) -> contains l1 rel -> contains l2 rel.
Proof.
  intros Hincl. destruct rel as [|d [|r rest]]; cbn [contains]; auto.
  intros (sub & Hin & Hsub). exists sub. auto.
Qed.

Lemma contains_nonempty (listing : list Dirent) (rel : list (list N)) :
  contains listing rel -> rel <> [].
Proof. destruct rel; [intros [] | discriminate]. Qed.

Lemma walkEntry_contains (base : list (list N)) (entry : Dirent) :
  proper_entry entry = true ->
  forall dir e,
    In e (walkEntry dir base entry) ->
    exists rel,
      fullPath e = dir ++ rel
      /\ contains [entry] rel
      /\ eligible (List.last rel []) = true.
Proof.
  induction entry as [entry_name|entry_name listing IH]
    using Dirent_nested_ind; cbn [proper_entry walkEntry]; intros Hp dir e.
  - fold (eligible entry_name).
    destruct (eligible entry_name) eqn:He; [|intros []].
    intros [<-|[]]. cbn [fullPath]. exists [entry_name].
    rewrite path_join_proper by assumption.
    repeat split; [now left | exact He].
  - apply andb_true_iff in Hp. destruct Hp as [Hn Hl].
    rewrite forallb_forall in Hl. rewrite List.Forall_forall in IH.
    rewrite in_flat_map. intros (x & Hx & He).
    destruct (IH x Hx (Hl x Hx) _ _ He) as (rel & Hfull & Hc & Hel).
    rewrite path_join_proper in Hfull by assumption.
    pose proof (contains_nonempty _ _ Hc) as Hne.
    exists (entry_name :: rel). split; [now rewrite Hfull, <- app_assoc|].
    destruct rel as [|r rest]; [contradiction|]. split; [|exact Hel].
    cbn [contains]. exists listing. split; [now left|].
    change (contains listing (r :: rest)).
    apply (contains_incl [x]); [|exact Hc].
    intros y [<-|[]]. exact Hx.
Qed.

Lemma contains_walk (base : list (list N)) (rel : list (list N)) :
  forall listing dir,
    forallb proper_entry listing = true ->
    contains listing rel ->
    eligible (List.last rel []) = true ->
    exists e, In e (walkDir listing dir base) /\ fullPath e = dir ++ rel.
Proof.
  induction rel as [|d rest IH]; intros listing dir Hp Hc He; [destruct Hc|].
  destruct rest as [|r rest].
  - cbn [contains List.last] in Hc, He.
    exists {| fullPath := path_join dir [d];
              relativePath := path_relative base (path_join dir [d]) |}.
    split.
    + unfold walkDir. apply in_flat_map. exists (File d).
      split; [exact Hc|]. cbn [walkEntry]. fold (eligible d).
      rewrite He. now left.
    + cbn [fullPath]. apply path_join_proper, eligible_proper.
      unfold eligible in He. now apply andb_true_iff in He.
  - destruct Hc as (sub & Hin & Hsub).
    rewrite forallb_forall in Hp. pose proof (Hp _ Hin) as Hd.
    cbn [proper_entry] in Hd. apply andb_true_iff in Hd.
    destruct Hd as [Hname Hsubp].
    destruct (IH sub (dir ++ [d]) Hsubp Hsub He) as (e & Hine & Hfull).
    exists e. split; [|now rewrite Hfull, <- app_assoc].
    unfold walkDir. apply in_flat_map. exists (Directory d sub).
    split; [exact Hin|]. cbn [walkEntry].
    now rewrite path_join_proper by assumption.
Qed.

(** X13: the walk finds exactly the eligible files of the tree, at any
    depth: there is an entry with full path [dir/rel] exactly when the
    listing holds a file at [rel] whose name ends with [.sh] and does not
    start with an underscore.  The names of the directories on the way
    play no part. *)
Theorem walk_exact (listing : list Dirent) (dir base rel : list (list N)) :
  forallb proper_entry listing = true ->
  (exists e, In e (walkDir listing dir base) /\ fullPath e = dir ++ rel)
  <-> contains listing rel /\ eligible (List.last rel []) = true.
Proof.
  intros Hp. split.
  - intros (e & Hin & Hfull). unfold walkDir in Hin.
    apply in_flat_map in Hin. destruct Hin as (x & Hx & He).
    rewrite forallb_forall in Hp.
    destruct (walkEntry_contains base x (Hp x Hx) dir e He)
      as (rel' & Hfull' & Hc & Hel).
    rewrite Hfull in Hfull'. apply app_inv_head in Hfull'. subst rel'.
    split; [|exact Hel].
    apply (contains_incl [x]); [|exact Hc]. intros y [<-|[]]. exact Hx.
  - intros [Hc He]. now apply contains_walk.
Qed.

(** A script below a directory whose name starts with an underscore. *)
Lemma walk_exact_witness :
  exists e,
    In e (walkDir sample_tree [js "repo"; js "scripts"] [js "repo"])
    /\ fullPath e = [js "repo"; js "scripts"] ++ [js "_drafts"; js "x.sh"].
Proof.
  apply (proj2 (walk_exact sample_tree [js "repo"; js "scripts"] [js "repo"]
                  [js "_drafts"; js "x.sh"] eq_refl)).
  split; [|reflexivity].
  cbn [contains]. exists [File (js "x.sh")]. split; now left.
Defined.

(** The walk of the sample tree: the draft and [foo.sh], not the template
    nor the readme. *)
Example walk_sample :
  map relativePath
    (walkDir sample_tree [js "repo"; js "scripts"] [js "repo"])
  = [js "scripts/_drafts/x.sh"; js "scripts/foo.sh"].
Proof. reflexivity. Qed.

(** ** What the mapping holds *)

Lemma build_loop_no_proto (readFileSync : list (list N) -> list N)
  (entries : list Entry) (st : JSObject * list (list N)) :
  own (fst st) !! js "__proto__" = None ->
  own (fst (build_loop readFileSync entries st)) !! js "__proto__" = None.
Proof.
  revert st. induction entries as [|e entries IH]; intros st Hst;
    cbn [build_loop fold_left]; [assumption|].
  apply IH. destruct (accepted readFileSync e) eqn:Ha.
  - rewrite build_body_accepted by assumption. cbn [fst]. unfold assign.
    destruct (str_eqb _ (js "__proto__")) eqn:Hp; [exact Hst|].
    cbn [own]. rewrite lookup_insert_ne; [exact Hst|].
    now apply str_eqb_neq in Hp.
  - rewrite build_body_rejected by assumption. exact Hst.
Qed.

(** X14: every entry of the mapping sits under its own name: the key is
    the [name] field of the entry, it is not empty, and the entry has a
    non-empty description. *)
Theorem entry_keyed_by_name (dirname : list (list N))
  (listing : list Dirent) (readFileSync : list (list N) -> list N)
  (now : list N) (k : list N) (v : JSON) :
  own (scripts (manifest (buildManifest dirname listing readFileSync now)))
    !! k = Some v ->
  k <> []
  /\ get v (js "name") = Some (JStr k)
  /\ exists d, d <> [] /\ get v (js "description") = Some (JStr d).
Proof.
  intros H.
  destruct (buildManifest_own _ _ _ _ _ _ H) as (e & _ & Ha & Hk & ->).
  unfold accepted in Ha. apply andb_true_iff in Ha. destruct Ha as [Hn Hd].
  unfold stored, entry_object. rewrite Hk in *.
  destruct (description (meta_of readFileSync e)) as [[|c d]|];
    try discriminate Hd.
  split; [intros ->; discriminate Hn|]. split; [reflexivity|].
  exists (c :: d). split; [discriminate | reflexivity].
Qed.

(** The entry of the collision sample. *)
Lemma entry_keyed_by_name_witness :
  get (stored (sample_read (js "foo")) sample_b) (js "name")
  = Some (JStr (js "foo")).
Proof.
  apply (entry_keyed_by_name sample_dirname sample_listing
           (sample_read (js "foo")) (js "now") (js "foo")).
  vm_compute. reflexivity.
Defined.

(** X15: whatever the files declare, the mapping never has an entry of
    its own under [__proto__]: a script of that name is accepted without a
    warning and is missing from the manifest. *)
Theorem proto_never_stored (dirname : list (list N))
  (listing : list Dirent) (readFileSync : list (list N) -> list N)
  (now : list N) :
  own (scripts (manifest (buildManifest dirname listing readFileSync now)))
    !! js "__proto__" = None.
Proof.
  rewrite buildManifest_scripts. apply build_loop_no_proto.
  cbn. apply lookup_empty.
Qed.

(** ** Counting *)

Lemma build_loop_size (readFileSync : list (list N) -> list N)
  (entries : list Entry) (st : JSObject * list (list N)) :
  (size (own (fst (build_loop readFileSync entries st)))
   + length (rejected readFileSync entries)
   <= size (own (fst st)) + length entries)%nat.
Proof.
  revert st. induction entries as [|e entries IH]; intros st;
    cbn [build_loop fold_left rejected List.filter length]; [lia|].
  fold (build_loop readFileSync entries (build_body readFileSync st e)).
  fold (rejected readFileSync entries).
  specialize (IH (build_body readFileSync st e)).
  destruct (accepted readFileSync e) eqn:Ha; cbn [negb length].
  - rewrite build_body_accepted in * by assumption. cbn [fst] in *.
    assert (size (own (assign (fst st)
                         (property_key (name (meta_of readFileSync e)))
                         (stored readFileSync e)))
            <= S (size (own (fst st))))%nat; [|lia].
    unfold assign. destruct (str_eqb _ (js "__proto__")); cbn [own].
    + unfold stored, entry_object. cbn [own]. lia.
    + rewrite map_size_insert. destruct (_ !! _); cbn; lia.
  - rewrite build_body_rejected in * by assumption. cbn [fst] in *. lia.
Qed.

Lemma warnings_length (readFileSync : list (list N) -> list N)
  (entries : list Entry) :
  length (flat_map (file_warnings readFileSync) entries)
  = length (rejected readFileSync entries).
Proof.
  induction entries as [|e entries IH];
    cbn [flat_map rejected List.filter]; [reflexivity|].
  fold (rejected readFileSync entries). rewrite length_app, IH.
  destruct (accepted readFileSync e) eqn:Ha; cbn [negb length].
  - now rewrite file_warnings_accepted.
  - unfold file_warnings. unfold accepted in Ha.
    destruct (truthy (name _)); cbn [negb]; [|reflexivity].
    destruct (truthy (description _)); [discriminate | reflexivity].
Qed.

(** X16: a run accounts for every file of the walk at most once: there is
    one warning for each rejected file and none for an accepted one, and
    the count of the manifest plus the number of warnings never exceeds
    the number of files found. *)
Theorem count_and_warnings (dirname : list (list N))
  (listing : list Dirent) (readFileSync : list (list N) -> list N)
  (now : list N) :
  let entries := walkDir listing (SCRIPTS_DIR dirname) (repoRoot dirname) in
  let b := buildManifest dirname listing readFileSync now in
  length (warnings b) = length (rejected readFileSync entries)
  /\ (count b + length (warnings b) <= length entries)%nat.
Proof.
  cbv zeta. rewrite buildManifest_warnings, warnings_length.
  split; [reflexivity|].
  pose proof (build_loop_size readFileSync
                (walkDir listing (SCRIPTS_DIR dirname) (repoRoot dirname))
                (empty_object, [])) as H.
  unfold buildManifest. destruct (build_loop _ _ _) as [s errs].
  cbn [count own fst empty_object] in *.
  rewrite map_size_empty in H. exact H.
Qed.

(** ** Uniquely named scripts *)

Section UniqueNames.

Variable readFileSync : list (list N) -> list N.

Local Abbreviation declared e := (name (meta_of readFileSync e)).

Lemma accepted_declares (e : Entry) :
  accepted readFileSync e = true ->
  exists k, declared e = Some k /\ property_key (declared e) = k.
Proof.
  unfold accepted. intros H. apply andb_true_iff in H. destruct H as [H _].
  destruct (declared e) as [k|]; [|discriminate]. now exists k.
Qed.

Lemma build_loop_fresh_size (entries : list Entry)
  (st : JSObject * list (list N)) :
  Forall (fun e => accepted readFileSync e = true) entries ->
  List.NoDup (map (fun e => declared e) entries) ->
  (forall e, In e entries -> declared e <> Some (js "__proto__")) ->
  (forall e, In e entries ->
             own (fst st) !! property_key (declared e) = None) ->
  size (own (fst (build_loop readFileSync entries st)))
  = (size (own (fst st)) + length entries)%nat.
Proof.
  revert st. induction entries as [|e entries IH];
    intros st Hacc Hnd Hproto Hfresh; cbn [build_loop fold_left length];
    [lia|].
  fold (build_loop readFileSync entries (build_body readFileSync st e)).
  inversion Hacc as [|? ? Ha Hacc']; subst.
  inversion Hnd as [|? ? Hnotin Hnd']; subst.
  destruct (accepted_declares e Ha) as (k & Hk & Hkey).
  assert (Hkp : str_eqb k (js "__proto__") = false).
  { apply str_eqb_neq. intros ->. apply (Hproto e); [now left | exact Hk]. }
  rewrite IH; try assumption.
  - rewrite build_body_accepted by assumption. cbn [fst]. rewrite Hkey.
    unfold assign. rewrite Hkp. cbn [own].
    rewrite map_size_insert_None; [lia|].
    rewrite <- Hkey. apply Hfresh. now left.
  - intros e' He'. apply Hproto. now right.
  - intros e' He'. rewrite build_body_accepted by assumption. cbn [fst].
    rewrite Hkey. unfold assign. rewrite Hkp. cbn [own].
    rewrite lookup_insert_ne; [apply Hfresh; now right|].
    intros Heq. apply Hnotin.
    rewrite List.Forall_forall in Hacc'.
    destruct (accepted_declares e' (Hacc' e' He')) as (k' & Hk' & Hkey').
    rewrite Hkey' in Heq. subst k'.
    rewrite Hk, <- Hk'. now apply (in_map (fun e => declared e)).
Qed.

(** X17: when every file of a list is accepted and the names they declare
    are pairwise different and none is [__proto__], the mapping has one
    entry for each file, under the name the file declares, and the run
    has no warning. *)
Theorem unique_names_all_stored (entries : list Entry) :
  Forall (fun e => accepted readFileSync e = true) entries ->
  List.NoDup (map (fun e => declared e) entries) ->
  (forall e, In e entries -> declared e <> Some (js "__proto__")) ->
  let result := build_loop readFileSync entries (empty_object, []) in
  size (own (fst result)) = length entries
  /\ snd result = []
  /\ (forall e, In e entries ->
                own (fst result) !! property_key (declared e)
                = Some (stored readFileSync e)).
Proof.
  intros Hacc Hnd Hproto. cbv zeta. split; [|split].
  - rewrite build_loop_fresh_size; try assumption.
    + cbn. now rewrite map_size_empty.
    + intros e _. cbn. apply lookup_empty.
  - rewrite build_loop_warnings. cbn [snd app].
    induction Hacc as [|e l Ha _ IH]; cbn [flat_map]; [reflexivity|].
    rewrite file_warnings_accepted by assumption. cbn [app].
    apply IH.
    + now inversion Hnd.
    + intros e' He'. apply Hproto. now right.
  - intros e He. rewrite List.Forall_forall in Hacc.
    destruct (accepted_declares e (Hacc e He)) as (k & Hk & Hkey).
    rewrite Hkey.
    destruct (in_split _ _ He) as (pre & post & ->).
    apply last_declaration_wins; auto.
    + intros ->. apply (Hproto e He Hk).
    + intros e' He' _ Heq.
      rewrite map_app in Hnd. cbn [map] in Hnd.
      apply List.NoDup_remove_2 in Hnd. apply Hnd.
      apply in_or_app. right. rewrite Hk, <- Heq.
      now apply (in_map (fun e => declared e)).
Qed.

End UniqueNames.

(** Two scripts, [alpha] and [beta]. *)
Lemma unique_names_all_stored_witness :
  let read := two_files
                (js "# @name alpha" ++ LF ++ js "# @description one")
                (js "# @name beta" ++ LF ++ js "# @description two") in
  let result := build_loop read [sample_a; sample_b] (empty_object, []) in
  size (own (fst result)) = 2%nat
  /\ snd result = []
  /\ own (fst result) !! js "alpha" = Some (stored read sample_a)
  /\ own (fst result) !! js "beta" = Some (stored read sample_b).
Proof.
  cbv zeta.
  destruct (unique_names_all_stored
              (two_files
                 (js "# @name alpha" ++ LF ++ js "# @description one")
                 (js "# @name beta" ++ LF ++ js "# @description two"))
              [sample_a; sample_b]) as (H1 & H2 & H3).
  - repeat constructor.
  - vm_compute. repeat constructor; cbn [In]; intuition discriminate.
  - intros e [<-|[<-|[]]]; vm_compute; discriminate.
  - split; [exact H1 | split; [exact H2 | split]].
    + apply (H3 sample_a). now left.
    + apply (H3 sample_b). right; now left.
Defined.

(** ** Line endings and indentation *)

Lemma trimStart_cons_space (c : N) (s : list N) :
  is_space c = true -> trimStart (c :: s) = trimStart s.
Proof.
  intros H. unfold trimStart. cbn [span]. rewrite H.
  now destruct (span is_space s).
Qed.

Lemma trimEnd_snoc_space (s : list N) (c : N) :
  is_space c = true -> trimEnd (s ++ [c]) = trimEnd s.
Proof.
  intros H. unfold trimEnd. rewrite rev_app_distr. cbn [rev app].
  now rewrite trimStart_cons_space.
Qed.

Lemma trim_snoc_space (s : list N) (c : N) :
  is_space c = true -> trim (s ++ [c]) = trim s.
Proof.
  intros H. unfold trim. induction s as [|a s IH].
  - cbn [app]. now rewrite trimStart_cons_space.
  - cbn [app]. destruct (is_space a) eqn:Ha.
    + now rewrite !trimStart_cons_space.
    + rewrite !trimStart_id by assumption.
      now apply (trimEnd_snoc_space (a :: s)).
Qed.

(** The loop reads a line through its trimmed form only. *)
Lemma scan_trim_eq (lines lines' : list (list N)) (st : Meta * bool) :
  map trim lines = map trim lines' -> scan lines st = scan lines' st.
Proof.
  revert lines' st. induction lines as [|l lines IH];
    intros [|l' lines'] st; try discriminate; [reflexivity|].
  cbn [map]. intros [= Hl Hrest]. cbn [scan].
  assert (Hb : loop_body st l = loop_body st l')
    by (unfold loop_body; now rewrite Hl).
  rewrite Hb. destruct (loop_body st l'); [now apply IH | reflexivity].
Qed.

(** X19: surrounding white space never matters: two texts whose lines
    agree once trimmed parse to the same record; in particular a text
    with a carriage return before every line feed parses as the text
    without them. *)
Theorem whitespace_insensitive (content content' : list N) :
  (map trim (split_lines content) = map trim (split_lines content') ->
   parseScript content = parseScript content')
  /\ (split_lines content' = with_carriage_returns (split_lines content) ->
      parseScript content' = parseScript content).
Proof.
  split; [apply scan_trim_eq|].
  intros H. unfold parseScript. apply scan_trim_eq. rewrite H.
  unfold with_carriage_returns. rewrite map_map.
  apply map_ext. intros l. now apply trim_snoc_space.
Qed.

(** A two-line script with Windows line endings (the code unit 13 is the
    carriage return). *)
Lemma whitespace_insensitive_witness :
  parseScript (js "# @name a" ++ [13] ++ LF ++ js "  # @description d" ++ [13])
  = parseScript (js "# @name a" ++ LF ++ js "  # @description d").
Proof.
  apply (proj2 (whitespace_insensitive
                  (js "# @name a" ++ LF ++ js "  # @description d") _)).
  reflexivity.
Defined.

(** ** The mapping, exactly *)

Lemma build_body_lookup (readFileSync : list (list N) -> list N)
  (st : JSObject * list (list N)) (e : Entry) (k : list N) :
  k <> js "__proto__" ->
  own (fst (build_body readFileSync st e)) !! k
  = if accepted readFileSync e
       && match name (meta_of readFileSync e) with
          | Some n => str_eqb n k
          | None => false
          end
    then Some (stored readFileSync e)
    else own (fst st) !! k.
Proof.
  intros Hk. destruct (accepted readFileSync e) eqn:Ha; cbn [andb].
  - rewrite build_body_accepted by assumption. cbn [fst].
    unfold accepted in Ha. apply andb_true_iff in Ha. destruct Ha as [Hn _].
    destruct (name (meta_of readFileSync e)) as [n|]; [|discriminate].
    cbn [property_key]. unfold assign.
    destruct (str_eqb n k) eqn:Hnk.
    + apply str_eqb_eq in Hnk. subst n.
      apply str_eqb_neq in Hk. rewrite Hk. cbn [own].
      apply lookup_insert_eq.
    + apply str_eqb_neq in Hnk.
      destruct (str_eqb n (js "__proto__")); [reflexivity|].
      cbn [own]. now apply lookup_insert_ne.
  - now rewrite build_body_rejected.
Qed.

Lemma build_loop_lookup (readFileSync : list (list N) -> list N)
  (entries : list Entry) (st : JSObject * list (list N)) (k : list N) :
  k <> js "__proto__" ->
  own (fst (build_loop readFileSync entries st)) !! k
  = match last_declaring readFileSync k entries with
    | Some e => Some (stored readFileSync e)
    | None => own (fst st) !! k
    end.
Proof.
  intros Hk. revert st. induction entries as [|e entries IH]; intros st;
    cbn [build_loop fold_left last_declaring]; [reflexivity|].
  fold (build_loop readFileSync entries (build_body readFileSync st e)).
  rewrite IH.
  destruct (last_declaring readFileSync k entries); [reflexivity|].
  rewrite build_body_lookup by assumption.
  now destruct (_ && _).
Qed.

(** X20: the mapping of a run is exactly this: under a name other than
    [__proto__] it holds the object of the last accepted file of the walk
    that declares the name, and nothing when no accepted file does. *)
Theorem manifest_lookup (dirname : list (list N)) (listing : list Dirent)
  (readFileSync : list (list N) -> list N) (now : list N) (k : list N) :
  k <> js "__proto__" ->
  own (scripts (manifest (buildManifest dirname listing readFileSync now)))
    !! k
  = option_map (stored readFileSync)
      (last_declaring readFileSync k
         (walkDir listing (SCRIPTS_DIR dirname) (repoRoot dirname))).
Proof.
  intros Hk. rewrite buildManifest_scripts, build_loop_lookup by assumption.
  destruct (last_declaring _ _ _); [reflexivity|]. cbn. apply lookup_empty.
Qed.

(** The collision sample under [foo], and under a name nobody declares. *)
Lemma manifest_lookup_witness :
  own (scripts (manifest (buildManifest sample_dirname sample_listing
                            (sample_read (js "foo")) (js "now"))))
    !! js "foo"
  = Some (stored (sample_read (js "foo")) sample_b)
  /\ own (scripts (manifest (buildManifest sample_dirname sample_listing
                               (sample_read (js "foo")) (js "now"))))
       !! js "bar"
     = None.
Proof.
  split.
  - rewrite manifest_lookup by discriminate. reflexivity.
  - rewrite manifest_lookup by discriminate. reflexivity.
Defined.
